(** * Search-problem formulations of [problem.py]: 8-puzzle and 8-queens

    The Python module works on lists that live in the interpreter's store:
    a state is a reference to a list object, [copy.deepcopy] and [list(..)]
    allocate new objects, [append] and item assignment update an object in
    place.  The embedding keeps that store explicit: a heap maps locations to
    list contents and every method is a computation over the heap that
    either returns a value or raises a Python exception. *)

From stdpp Require Import gmap strings list fin_maps.
From Stdlib Require Import ZArith Lia.

Open Scope Z_scope.

(** ** Python values, store and the computation monad *)

Abbreviation loc := positive.

(** The values the module manipulates: ints, strs (the puzzle's actions),
    two-int tuples (the queens' actions) and references to list objects. *)
Inductive val :=
  | VInt (z : Z)
  | VStr (s : string)
  | VPair (a b : Z)
  | VRef (l : loc).

#[global] Instance val_eq_dec : EqDecision val.
Proof. solve_decision. Defined.

Abbreviation heap := (gmap loc (list val)).

Inductive exn :=
  | ValueError (msg : string)
  | IndexError (msg : string)
  | TypeError (msg : string)
  | KeyError (k : val)
  | RecursionError.

Inductive outcome (A : Type) :=
  | Ret (a : A)
  | Raise (e : exn).
Arguments Ret {A} a.
Arguments Raise {A} e.

(** A computation takes the store and gives the store it leaves behind
    together with its outcome; an exception keeps the store as it was when
    it was raised. *)
Definition M (A : Type) : Type := heap → heap * outcome A.

#[global] Instance M_ret : MRet M := λ A a h, (h, Ret a).
#[global] Instance M_bind : MBind M := λ A B f m h,
  match m h with
  | (h', Ret a) => f a h'
  | (h', Raise e) => (h', Raise e)
  end.

Definition raise {A} (e : exn) : M A := λ h, (h, Raise e).

(** [for x in xs: body] where the body updates local variables [s]. *)
Fixpoint for_acc {A S} (xs : list A) (s : S) (body : A → S → M S) : M S :=
  match xs with
  | [] => mret s
  | x :: xs => s' ← body x s; for_acc xs s' body
  end.

(** [for x in xs: body] with no loop-carried local. *)
Definition for_ {A} (xs : list A) (body : A → M ()) : M () :=
  for_acc xs () (λ x _, body x).

(** [for x in xs: body] whose body may [return]: [Some r] leaves the loop. *)
Fixpoint for_ret {A R} (xs : list A) (body : A → M (option R)) : M (option R) :=
  match xs with
  | [] => mret None
  | x :: xs =>
      r ← body x;
      match r with
      | Some r => mret (Some r)
      | None => for_ret xs body
      end
  end.

(** [range(a, b)] *)
Definition range (a b : Z) : list Z := seqZ a (b - a).

(** *** Built-in operations *)

(** The items of a sequence value: the contents of a list object, the two
    components of a tuple, the characters of a str (of an ASCII str: the
    strs of this module that are iterated nowhere hold accents). *)
Definition chars (s : string) : list val :=
  (λ c, VStr (String c EmptyString)) <$> String.list_ascii_of_string s.

Definition items (x : val) : M (list val) := λ h,
  match x with
  | VRef l =>
      match h !! l with
      | Some xs => (h, Ret xs)
      | None => (h, Raise (TypeError "object is not iterable"))
      end
  | VPair a b => (h, Ret [VInt a; VInt b])
  | VStr s => (h, Ret (chars s))
  | VInt _ => (h, Raise (TypeError "'int' object is not iterable"))
  end.

(** A new list object, at a location the store does not use yet. *)
Definition alloc (xs : list val) : M loc := λ h,
  let l := fresh (dom h) in (<[l := xs]> h, Ret l).

(** [[]] and list displays. *)
Definition list_new (xs : list val) : M val :=
  l ← alloc xs; mret (VRef l).

(** [list(x)] *)
Definition list_ (x : val) : M val :=
  xs ← items x; list_new xs.

(** [len(x)] *)
Definition len (x : val) : M Z :=
  match x with
  | VInt _ => raise (TypeError "object of type 'int' has no len()")
  | _ => xs ← items x; mret (Z.of_nat (length xs))
  end.

(** Python's index rule: a negative index counts from the end. *)
Definition index (n : nat) (i : Z) : option nat :=
  let i' := if i <? 0 then i + Z.of_nat n else i in
  if (0 <=? i') && (i' <? Z.of_nat n) then Some (Z.to_nat i') else None.

(** The [IndexError] of a read outside the sequence [x]: its text names the
    type of [x]. *)
Definition index_error (x : val) : exn :=
  match x with
  | VStr _ => IndexError "string index out of range"
  | VPair _ _ => IndexError "tuple index out of range"
  | _ => IndexError "list index out of range"
  end.

(** [x[i]] *)
Definition getitem (x : val) (i : Z) : M val :=
  match x with
  | VInt _ => raise (TypeError "'int' object is not subscriptable")
  | _ =>
      xs ← items x;
      match index (length xs) i with
      | Some k =>
          match xs !! k with
          | Some v => mret v
          | None => raise (index_error x)
          end
      | None => raise (index_error x)
      end
  end.

(** [x[i] = v] *)
Definition setitem (x : val) (i : Z) (v : val) : M () := λ h,
  match x with
  | VRef l =>
      match h !! l with
      | Some xs =>
          match index (length xs) i with
          | Some k => (<[l := <[k := v]> xs]> h, Ret ())
          | None => (h, Raise (IndexError "list assignment index out of range"))
          end
      | None => (h, Raise (TypeError "object does not support item assignment"))
      end
  | _ => (h, Raise (TypeError "object does not support item assignment"))
  end.

(** [x.append(v)] *)
Definition append (x : val) (v : val) : M () := λ h,
  match x with
  | VRef l =>
      match h !! l with
      | Some xs => (<[l := xs ++ [v]]> h, Ret ())
      | None => (h, Raise (TypeError "object has no attribute 'append'"))
      end
  | _ => (h, Raise (TypeError "object has no attribute 'append'"))
  end.

(** [x[a:b]] for a list and [0 <= a <= b]: a new list object. *)
Definition slice (x : val) (a b : Z) : M val :=
  xs ← items x;
  list_new (take (Z.to_nat (b - a)) (drop (Z.to_nat a) xs)).

(** [a == b].  Ints, strs and tuples compare by value, two lists by their
    items (an item that is itself a list by identity); values of different
    kinds are unequal. *)
Definition py_eq (a b : val) : M bool :=
  match a, b with
  | VRef _, VRef _ => xs ← items a; ys ← items b; mret (bool_decide (xs = ys))
  | _, _ => mret (bool_decide (a = b))
  end.

(** [a != b] *)
Definition py_ne (a b : val) : M bool :=
  e ← py_eq a b; mret (negb e).

(** [a > b] on ints; the other kinds stored here have no order with an int. *)
Definition py_gt (a b : val) : M bool :=
  match a, b with
  | VInt x, VInt y => mret (x >? y)
  | _, _ => raise (TypeError "'>' not supported between instances")
  end.

(** [a - b] on ints. *)
Definition py_sub (a b : val) : M Z :=
  match a, b with
  | VInt x, VInt y => mret (x - y)
  | _, _ => raise (TypeError "unsupported operand type(s) for -")
  end.

(** *** [copy.deepcopy]

    A list is copied into a new list object, registered in the memo before
    its items are copied, so that shared and cyclic structure is kept; ints,
    strs and tuples of ints are returned as they are.  [depth] bounds the
    nesting that is followed, as the interpreter's recursion limit does. *)
Fixpoint deepcopy_ (depth : nat) (x : val) (memo : gmap loc loc)
    : M (val * gmap loc loc) :=
  match x with
  | VRef l =>
      match memo !! l with
      | Some y => mret (VRef y, memo)
      | None =>
          match depth with
          | O => raise RecursionError
          | S depth =>
              y ← alloc [];
              let memo := <[l := y]> memo in
              xs ← items x;
              memo ← for_acc xs memo (λ a memo,
                '(b, memo) ← deepcopy_ depth a memo;
                append (VRef y) b;;
                mret memo);
              mret (VRef y, memo)
          end
      end
  | _ => mret (x, memo)
  end.

Definition recursion_limit : nat := 1000.

Definition deepcopy (x : val) : M val :=
  '(y, _) ← deepcopy_ recursion_limit x ∅; mret y.

(** *** The [random] module

    The generator is the sequence of raw draws still to come;
    [randbelow n] takes the next one into [0, n). *)
Definition rng : Type := nat → nat.

Definition randbelow (n : Z) (g : rng) : Z * rng :=
  (Z.of_nat (g O) `mod` n, λ k, g (S k)).

(** [random.randint(a, b)] *)
Definition randint (a b : Z) (g : rng) : Z * rng :=
  let '(r, g) := randbelow (b - a + 1) g in (a + r, g).

(** [random.shuffle(x)]:
    [for i in reversed(range(1, len(x))): j = randbelow(i + 1);
     x[i], x[j] = x[j], x[i]] *)
Definition shuffle (x : val) (g : rng) : M rng :=
  n ← len x;
  for_acc (reverse (range 1 n)) g (λ i g,
    let '(j, g) := randbelow (i + 1) g in
    xj ← getitem x j;
    xi ← getitem x i;
    setitem x i xj;;
    setitem x j xi;;
    mret g).

(** ** The 8-queens formulation *)

Module EightQueensProblem.

Definition N : Z := 8.

Record self := { _initial : val }.

Definition estado_aleatorio (g : rng) : M (val * rng) :=
  '(rows, g) ← for_acc (range 0 N) ([], g) (λ _ '(rows, g),
    let '(r, g) := randint 1 N g in mret (rows ++ [VInt r], g));
  x ← list_new rows;
  mret (x, g).

Definition __init__ (initial : option val) (g : rng) : M (self * rng) :=
  match initial with
  | None =>
      '(x, g) ← estado_aleatorio g;
      mret ({| _initial := x |}, g)
  | Some initial =>
      n ← len initial;
      if negb (n =? N) then
        raise (ValueError "Estado inicial debe tener longitud 8")
      else
        x ← list_ initial;
        mret ({| _initial := x |}, g)
  end.

Definition estado_inicial (s : self) : M val :=
  list_ (_initial s).

Definition acciones (estado : val) : M val :=
  acts ← list_new [];
  for_ (range 1 (N + 1)) (λ col,
    for_ (range 1 (N + 1)) (λ row,
      x ← getitem estado (col - 1);
      ne ← py_ne x (VInt row);
      if ne : bool then append acts (VPair row col) else mret tt));;
  mret acts.

Definition resultado (estado : val) (accion : Z * Z) : M val :=
  let '(row, col) := accion in
  if negb ((1 <=? row) && (row <=? N)) then
    raise (ValueError "Fila fuera de rango")
  else if negb ((1 <=? col) && (col <=? N)) then
    raise (ValueError "Columna fuera de rango")
  else
    new_state ← list_ estado;
    setitem new_state (col - 1) (VInt row);;
    mret new_state.

Definition valor_objetivo (estado : val) : M Z :=
  for_acc (range 1 (N + 1)) 0 (λ i conflictos,
    for_acc (range (i + 1) (N + 1)) conflictos (λ j conflictos,
      ri ← getitem estado (i - 1);
      rj ← getitem estado (j - 1);
      same ← py_eq ri rj;
      if same : bool then mret (conflictos + 1)
      else
        d ← py_sub ri rj;
        if Z.abs d =? Z.abs (i - j) then mret (conflictos + 1)
        else mret conflictos)).

End EightQueensProblem.

(** ** The 8-puzzle formulation *)

Module EightPuzzleProblem.

(** The class attribute [GOAL]; no method assigns to it or to its rows. *)
Definition GOAL : list (list Z) := [[0; 1; 2]; [3; 4; 5]; [6; 7; 8]].

(** [self._pos_objetivo] is a dict from tile value to goal position; it
    is filled once by [__init__] and only read afterwards, so the record
    holds it as a finite map. *)
Record self := { _initial : val; _pos_objetivo : gmap Z (Z * Z) }.

Definition _buscar_cero (estado : val) : M (Z * Z) :=
  found ← for_ret (range 0 3) (λ r,
    for_ret (range 0 3) (λ c,
      row ← getitem estado r;
      x ← getitem row c;
      z ← py_eq x (VInt 0);
      if z : bool then mret (Some (r, c)) else mret None));
  match found with
  | Some rc => mret rc
  | None => raise (ValueError "Estado inválido: no contiene cero")
  end.

Definition acciones (estado : val) : M val :=
  acts ← list_new [];
  '(zr, zc) ← _buscar_cero estado;
  (if zr >? 0 then append acts (VStr "UP") else mret tt);;
  (if zr <? 2 then append acts (VStr "DOWN") else mret tt);;
  (if zc >? 0 then append acts (VStr "LEFT") else mret tt);;
  (if zc <? 2 then append acts (VStr "RIGHT") else mret tt);;
  mret acts.

Definition resultado (estado : val) (accion : string) : M val :=
  new_state ← deepcopy estado;
  '(zr, zc) ← _buscar_cero estado;
  '(nr, nc) ←
    (if String.eqb accion "UP" then mret (zr - 1, zc)
     else if String.eqb accion "DOWN" then mret (zr + 1, zc)
     else if String.eqb accion "LEFT" then mret (zr, zc - 1)
     else if String.eqb accion "RIGHT" then mret (zr, zc + 1)
     else raise (ValueError ("Acción inválida: " +:+ accion)));
  if negb ((0 <=? nr) && (nr <? 3) && (0 <=? nc) && (nc <? 3)) then
    raise (IndexError "Movimiento fuera de límites")
  else
    (* intercambiar 0 con la casilla destino *)
    row_n ← getitem new_state nr;
    a ← getitem row_n nc;
    row_z ← getitem new_state zr;
    b ← getitem row_z zc;
    row_z ← getitem new_state zr;
    setitem row_z zc a;;
    row_n ← getitem new_state nr;
    setitem row_n nc b;;
    mret new_state.

Definition __contar_inversiones (perm : val) : M Z :=
  (* sacar el 0 de la permutación *)
  xs ← items perm;
  kept ← for_acc xs [] (λ x kept,
    ne ← py_ne x (VInt 0);
    mret (if ne : bool then kept ++ [x] else kept));
  perm ← list_new kept;
  n ← len perm;
  for_acc (range 0 n) 0 (λ i inv,
    n ← len perm;
    for_acc (range (i + 1) n) inv (λ j inv,
      pi ← getitem perm i;
      pj ← getitem perm j;
      gt ← py_gt pi pj;
      mret (if gt : bool then inv + 1 else inv))).

Definition __es_resoluble (perm : val) : M bool :=
  inv ← __contar_inversiones perm;
  mret (inv `mod` 2 =? 0).

(** [while not self.__es_resoluble(perm): random.shuffle(perm)], run for
    at most [fuel] tests of the condition; [None] when the loop has not
    been left by then. *)
Fixpoint shuffle_until_resoluble (fuel : nat) (perm : val) (g : rng)
    : M (option rng) :=
  match fuel with
  | O => mret None
  | S fuel =>
      ok ← __es_resoluble perm;
      if negb ok then
        g ← shuffle perm g;
        shuffle_until_resoluble fuel perm g
      else mret (Some g)
  end.

Definition estado_aleatorio (fuel : nat) (g : rng) : M (option (val * rng)) :=
  perm ← list_new (VInt <$> range 0 9);
  g ← shuffle perm g;
  (* asegurar que la permutación sea resoluble *)
  left ← shuffle_until_resoluble fuel perm g;
  match left with
  | None => mret None
  | Some g =>
      r0 ← slice perm 0 3;
      r1 ← slice perm 3 6;
      r2 ← slice perm 6 9;
      x ← list_new [r0; r1; r2];
      mret (Some (x, g))
  end.

(** The loop of [__init__] that fills the map of goal positions. *)
Definition pos_objetivo_init : gmap Z (Z * Z) :=
  foldl (λ pos r,
    foldl (λ pos c,
      match GOAL !! Z.to_nat r ≫= (.!! Z.to_nat c) with
      | Some v => <[v := (r, c)]> pos
      | None => pos
      end) pos (range 0 3)) ∅ (range 0 3).

Definition __init__ (initial : option val) (fuel : nat) (g : rng)
    : M (option (self * rng)) :=
  created ←
    match initial with
    | None => estado_aleatorio fuel g
    | Some initial => x ← deepcopy initial; mret (Some (x, g))
    end;
  match created with
  | None => mret None
  | Some (x, g) =>
      (* mapa de valor a posición objetivo *)
      mret (Some ({| _initial := x; _pos_objetivo := pos_objetivo_init |}, g))
  end.

Definition estado_inicial (s : self) : M val :=
  deepcopy (_initial s).

Definition valor_objetivo (s : self) (estado : val) : M Z :=
  for_acc (range 0 3) 0 (λ r total,
    for_acc (range 0 3) total (λ c total,
      row ← getitem estado r;
      v ← getitem row c;
      z ← py_eq v (VInt 0);
      if z : bool then mret total
      else
        match v with
        | VInt k =>
            match _pos_objetivo s !! k with
            | Some (gr, gc) => mret (total + (Z.abs (r - gr) + Z.abs (c - gc)))
            | None => raise (KeyError v)
            end
        | _ => raise (KeyError v)
        end)).

End EightPuzzleProblem.

(** ** Vocabulary of the statements

    What the properties below talk about: how a state sits in the store,
    and the quantities the results of the methods are compared with. *)

(** *** Loops *)

(** The first result that [f] gives along [xs]. *)
Fixpoint first_some {A R} (f : A → option R) (xs : list A) : option R :=
  match xs with
  | [] => None
  | x :: xs => match f x with Some r => Some r | None => first_some f xs end
  end.

(** *** Queens *)

(** A queens state in the store: a list object of eight ints. *)
Definition is_queens (h : heap) (e : loc) (rs : list Z) : Prop :=
  h !! e = Some (VInt <$> rs) ∧ length rs = 8%nat.

(** The row of the queen in column [i] (columns are numbered from 1). *)
Definition queen_row (rs : list Z) (i : Z) : Z := rs !!! Z.to_nat (i - 1).

(** The queens of columns [i] and [j] share a row or a diagonal. *)
Definition attack (rs : list Z) (i j : Z) : bool :=
  (queen_row rs i =? queen_row rs j)
  || (Z.abs (queen_row rs i - queen_row rs j) =? Z.abs (i - j)).

(** The number of pairs of columns [i < j] that attack each other. *)
Definition attacking_pairs (rs : list Z) : Z :=
  Z.of_nat (length (List.filter (λ p, (p.1 <? p.2) && attack rs p.1 p.2)
                      (list_prod (range 1 9) (range 1 9)))).

(** The moves the enumeration lists for one column, in the order of the
    inner loop, and for the whole board. *)
Definition moves_in_column (rs : list Z) (col : Z) : list val :=
  range 1 9 ≫= λ r, if queen_row rs col =? r then [] else [VPair r col].

Definition all_moves (rs : list Z) : list val :=
  range 1 9 ≫= moves_in_column rs.

(** Two states of the examples. *)
Definition ones : list Z := [1; 1; 1; 1; 1; 1; 1; 1].

Definition classical : list Z := [1; 3; 5; 7; 2; 4; 6; 8].

(** A list object of ints, of any length. *)
Definition is_ints (h : heap) (e : loc) (rs : list Z) : Prop :=
  h !! e = Some (VInt <$> rs).

(** Every row of the state is a row of the board. *)
Definition rows_in_board (rs : list Z) : Prop :=
  ∀ r, r ∈ rs → 1 ≤ r ≤ 8.

(** The rows that [estado_aleatorio] draws in [n] rounds after [rs]. *)
Fixpoint drawn_rows (n : nat) (rs : list Z) (g : rng) : list Z * rng :=
  match n with
  | O => (rs, g)
  | S n => let '(r, g) := randint 1 8 g in drawn_rows n (rs ++ [r]) g
  end.

(** *** Puzzle *)

(** A grid in the store: the list object at [x] holds references to the
    row objects [rows], and these hold the ints of the rows of [g]. *)
Definition is_grid (h : heap) (x : loc) (rows : list loc)
    (g : list (list Z)) : Prop :=
  h !! x = Some (VRef <$> rows)
  ∧ Forall2 (λ r zs, h !! r = Some (VInt <$> zs)) rows g.

(** A puzzle state in the store, whatever the locations of its rows. *)
Definition is_puzzle (h : heap) (x : loc) (g : list (list Z)) : Prop :=
  ∃ rows, is_grid h x rows g.

(** The state invariant: three rows of three cells that hold each of
    0..8 once. *)
Definition valid_grid (g : list (list Z)) : Prop :=
  length g = 3%nat
  ∧ Forall (λ zs, length zs = 3%nat) g
  ∧ concat g ≡ₚ range 0 9.

(** The value in row [r], column [c]. *)
Definition cell (g : list (list Z)) (r c : Z) : option Z :=
  if (0 <=? r) && (0 <=? c) then g !! Z.to_nat r ≫= (.!! Z.to_nat c) else None.

(** The first cell that holds 0, reading the rows in order. *)
Definition find_zero (g : list (list Z)) : option (Z * Z) :=
  first_some (λ r,
    first_some (λ c,
      match cell g r c with
      | Some v => if v =? 0 then Some (r, c) else None
      | None => None
      end) (range 0 3)) (range 0 3).

(** The grid with [v] written in row [r], column [c]. *)
Definition set_cell (g : list (list Z)) (r c : Z) (v : Z) : list (list Z) :=
  alter (<[Z.to_nat c := v]>) (Z.to_nat r) g.

(** Legality of a move of the blank from [(zr, zc)]. *)
Definition legal (zr zc : Z) (a : string) : bool :=
  if String.eqb a "UP" then zr >? 0
  else if String.eqb a "DOWN" then zr <? 2
  else if String.eqb a "LEFT" then zc >? 0
  else if String.eqb a "RIGHT" then zc <? 2
  else false.

(** The four actions, in the order of the enumeration. *)
Definition directions : list string := ["UP"; "DOWN"; "LEFT"; "RIGHT"].

(** The legal ones among them, in that order. *)
Definition legal_moves (zr zc : Z) : list val :=
  VStr <$> List.filter (legal zr zc) directions.

(** The cell the blank moves to. *)
Definition target (a : string) (zr zc : Z) : option (Z * Z) :=
  if String.eqb a "UP" then Some (zr - 1, zc)
  else if String.eqb a "DOWN" then Some (zr + 1, zc)
  else if String.eqb a "LEFT" then Some (zr, zc - 1)
  else if String.eqb a "RIGHT" then Some (zr, zc + 1)
  else None.

(** The cell lies in the 3x3 grid. *)
Definition in_grid (rc : Z * Z) : bool :=
  (0 <=? rc.1) && (rc.1 <? 3) && (0 <=? rc.2) && (rc.2 <? 3).

(** The cells of the grid, row by row. *)
Definition positions : list (Z * Z) :=
  r ← range 0 3; c ← range 0 3; [(r, c)].

(** Where the goal grid holds [v]. *)
Definition goal_pos (v : Z) : Z * Z :=
  default (0, 0)
    (List.find (λ p, bool_decide (cell EightPuzzleProblem.GOAL p.1 p.2 = Some v))
       positions).

(** The Manhattan distance of the tile in cell [(r, c)] to its goal cell;
    the blank does not count. *)
Definition tile_distance (g : list (list Z)) (r c : Z) : Z :=
  match cell g r c with
  | Some v =>
      if v =? 0 then 0
      else Z.abs (r - (goal_pos v).1) + Z.abs (c - (goal_pos v).2)
  | None => 0
  end.

(** The sum of these distances over the grid. *)
Definition manhattan (g : list (list Z)) : Z :=
  foldr Z.add 0 ((λ p, tile_distance g p.1 p.2) <$> positions).

(** The permutation with the blank taken out. *)
Definition tiles (zs : list Z) : list Z := filter (λ z, z ≠ 0) zs.

(** Positions [i < j] whose values are out of order. *)
Definition inverted (l : list Z) (i j : Z) : bool :=
  (i <? j) && (l !!! Z.to_nat i >? l !!! Z.to_nat j).

(** The number of inversions of [l]. *)
Definition inversions (l : list Z) : Z :=
  Z.of_nat (length (List.filter (λ p, inverted l p.1 p.2)
    (list_prod (range 0 (Z.of_nat (length l)))
               (range 0 (Z.of_nat (length l)))))).

(** What the loop and the steps around it leave of a store [h]: the
    objects of [h] other than the permutation [p] are as they were. *)
Definition kept_but (p : loc) (h h' : heap) : Prop :=
  ∀ l xs, l ≠ p → h !! l = Some xs → h' !! l = Some xs.

(** The rows [perm[0:3]], [perm[3:6]], [perm[6:9]]. *)
Definition rows_of (zs : list Z) : list (list Z) :=
  [take 3 zs; take 3 (drop 3 zs); take 3 (drop 6 zs)].

(** A store that holds one puzzle state at location 1, rows at 2, 3, 4. *)
Definition store_of (g : list (list Z)) : heap :=
  <[1%positive := VRef <$> [2; 3; 4]%positive]>
    (list_to_map
       (zip [2; 3; 4]%positive ((λ zs : list Z, VInt <$> zs) <$> g))).

(** A state with the blank in the middle cell. *)
Definition grid_mid : list (list Z) := [[1; 2; 3]; [4; 0; 5]; [6; 7; 8]].

(** The random stream whose draws are all 0. *)
Definition zeros : rng := λ _, 0%nat.

(** Three rows of three cells, whatever they hold. *)
Definition grid3 (g : list (list Z)) : Prop :=
  length g = 3%nat ∧ Forall (λ zs, length zs = 3%nat) g.

(** Cell [(r, c)] is read before cell [(r', c')] by a row-major scan. *)
Definition scanned_before (r c r' c' : Z) : Prop :=
  3 * r + c < 3 * r' + c'.

(** A grid of the tiles 1..9: no cell holds the blank. *)
Definition grid_no_blank : list (list Z) := [[1; 2; 3]; [4; 5; 6]; [7; 8; 9]].

(** A grid that is no state: two blanks. *)
Definition grid_two_blanks : list (list Z) :=
  [[1; 2; 3]; [4; 0; 5]; [0; 7; 8]].

(** A grid of tiles of the puzzle in which one tile comes twice. *)
Definition grid_twice : list (list Z) := [[1; 1; 2]; [3; 4; 5]; [6; 7; 0]].

(** The action that moves the blank back. *)
Definition opposite (a : string) : string :=
  if String.eqb a "UP" then "DOWN"
  else if String.eqb a "DOWN" then "UP"
  else if String.eqb a "LEFT" then "RIGHT"
  else if String.eqb a "RIGHT" then "LEFT"
  else a.

(** The grid after the blank of cell [(zr, zc)] and the tile [v] of cell
    [(nr, nc)] have changed places. *)
Definition moved (g : list (list Z)) (zr zc nr nc v : Z) : list (list Z) :=
  set_cell (set_cell g zr zc v) nr nc 0.

(** The distance that the tile [v] adds to the objective in cell [(r, c)]. *)
Definition tile_dist (v r c : Z) : Z :=
  if v =? 0 then 0
  else Z.abs (r - (goal_pos v).1) + Z.abs (c - (goal_pos v).2).

(** The inversion that the values [x], [y] make when [x] comes first. *)
Definition inv_pair (x y : Z) : Z := if x >? y then 1 else 0.

(** ** Running computations *)

Section running.
Context {A B : Type}.
Implicit Types (m : M A) (f : A → M B) (h : heap).

Lemma bind_ret m f h h' a :
  m h = (h', Ret a) → (m ≫= f) h = f a h'.
Proof. intros E. unfold mbind, M_bind. by rewrite E. Qed.

Lemma bind_raise m f h h' e :
  m h = (h', Raise e) → (m ≫= f) h = (h', Raise e).
Proof. intros E. unfold mbind, M_bind. by rewrite E. Qed.

Lemma bind_inv_ret m f h h' b :
  (m ≫= f) h = (h', Ret b) →
  ∃ h1 a, m h = (h1, Ret a) ∧ f a h1 = (h', Ret b).
Proof.
  unfold mbind, M_bind. destruct (m h) as [h1 [a|e]]; [eauto|done].
Qed.
End running.

Lemma mret_run {A} (a : A) (h : heap) : (mret a : M A) h = (h, Ret a).
Proof. done. Qed.

(** A loop whose body only reads the store is a fold over its range. *)
Lemma for_acc_pure {A S} (xs : list A) (f : A → S → S) (body : A → S → M S)
    (h : heap) (s : S) :
  (∀ x s, x ∈ xs → body x s h = (h, Ret (f x s))) →
  for_acc xs s body h = (h, Ret (foldl (λ s x, f x s) s xs)).
Proof.
  revert s. induction xs as [|x xs IH]; intros s Hb; [done|].
  cbn [for_acc foldl].
  rewrite (bind_ret _ _ _ _ _ (Hb x s ltac:(left))).
  apply IH. intros y t Hy. apply Hb. by right.
Qed.

(** A loop whose body only appends to the list at [la] appends the
    concatenation of what each round appends. *)
Lemma for_appending {A} (xs : list A) (la : loc) (g : A → list val)
    (body : A → M ()) (hb : heap) (acc : list val) :
  (∀ x acc, x ∈ xs →
     body x (<[la := acc]> hb) = (<[la := acc ++ g x]> hb, Ret tt)) →
  for_ xs body (<[la := acc]> hb) = (<[la := acc ++ (xs ≫= g)]> hb, Ret tt).
Proof.
  unfold for_. revert acc. induction xs as [|x xs IH]; intros acc Hb.
  - cbn. by rewrite app_nil_r.
  - cbn [for_acc].
    rewrite (bind_ret _ _ _ _ _ (Hb x acc ltac:(left))).
    rewrite IH; [by rewrite <- app_assoc|].
    intros y acc' Hy. apply Hb. by right.
Qed.

(** *** The built-in operations on a list object *)

Section builtins.
Implicit Types (h : heap) (l : loc) (xs : list val) (v : val).

Lemma items_list h l xs : h !! l = Some xs → items (VRef l) h = (h, Ret xs).
Proof. intros E. unfold items. by rewrite E. Qed.

Lemma len_list h l xs :
  h !! l = Some xs → len (VRef l) h = (h, Ret (Z.of_nat (length xs))).
Proof. intros E. unfold len. by rewrite (bind_ret _ _ _ _ _ (items_list _ _ _ E)). Qed.

Lemma index_nonneg (n : nat) (i : Z) :
  0 ≤ i < Z.of_nat n → index n i = Some (Z.to_nat i).
Proof.
  intros Hi. unfold index.
  destruct (Z.ltb_spec i 0); [lia|].
  destruct (Z.leb_spec 0 i); [|lia].
  destruct (Z.ltb_spec i (Z.of_nat n)); [done|lia].
Qed.

Lemma index_out (n : nat) (i : Z) : Z.of_nat n ≤ i → index n i = None.
Proof.
  intros Hi. unfold index.
  destruct (Z.ltb_spec i 0); [lia|].
  destruct (Z.leb_spec 0 i); [|lia].
  destruct (Z.ltb_spec i (Z.of_nat n)); [lia|done].
Qed.

Lemma getitem_list h l xs i v :
  h !! l = Some xs → 0 ≤ i → xs !! Z.to_nat i = Some v →
  getitem (VRef l) i h = (h, Ret v).
Proof.
  intros E Hi Hv. unfold getitem.
  rewrite (bind_ret _ _ _ _ _ (items_list _ _ _ E)).
  rewrite index_nonneg; [by rewrite Hv|].
  apply lookup_lt_Some in Hv. lia.
Qed.

Lemma setitem_list h l xs i v :
  h !! l = Some xs → 0 ≤ i < Z.of_nat (length xs) →
  setitem (VRef l) i v h = (<[l := <[Z.to_nat i := v]> xs]> h, Ret tt).
Proof. intros E Hi. unfold setitem. by rewrite E, index_nonneg. Qed.

Lemma append_list h l xs v :
  h !! l = Some xs → append (VRef l) v h = (<[l := xs ++ [v]]> h, Ret tt).
Proof. intros E. unfold append. by rewrite E. Qed.

Lemma alloc_fresh h : h !! fresh (dom h) = None.
Proof. apply not_elem_of_dom, is_fresh. Qed.

Lemma alloc_ne h l xs : h !! l = Some xs → l ≠ fresh (dom h).
Proof. intros E ->. by rewrite alloc_fresh in E. Qed.

Lemma alloc_subseteq h xs : h ⊆ <[fresh (dom h) := xs]> h.
Proof. apply insert_subseteq, alloc_fresh. Qed.

Lemma list_new_run h xs :
  list_new xs h = (<[fresh (dom h) := xs]> h, Ret (VRef (fresh (dom h)))).
Proof. done. Qed.

Lemma list_run h l xs :
  h !! l = Some xs →
  list_ (VRef l) h = (<[fresh (dom h) := xs]> h, Ret (VRef (fresh (dom h)))).
Proof.
  intros E. unfold list_.
  by rewrite (bind_ret _ _ _ _ _ (items_list _ _ _ E)).
Qed.

Lemma py_eq_int (a b : Z) h :
  py_eq (VInt a) (VInt b) h = (h, Ret (a =? b)).
Proof.
  cbn. f_equal. f_equal.
  destruct (Z.eqb_spec a b) as [->|Hne].
  - by rewrite bool_decide_eq_true_2.
  - rewrite bool_decide_eq_false_2; [done|congruence].
Qed.

Lemma py_ne_int (a b : Z) h :
  py_ne (VInt a) (VInt b) h = (h, Ret (negb (a =? b))).
Proof. unfold py_ne. by rewrite (bind_ret _ _ _ _ _ (py_eq_int _ _ _)). Qed.
End builtins.

Lemma range_elem (a b x : Z) : x ∈ range a b ↔ a ≤ x < b.
Proof. unfold range. rewrite elem_of_seqZ. lia. Qed.

Lemma lookup_ints (rs : list Z) (k : nat) :
  (k < length rs)%nat → (VInt <$> rs) !! k = Some (VInt (rs !!! k)).
Proof.
  intros Hk. rewrite list_lookup_fmap.
  by rewrite (list_lookup_lookup_total_lt rs k Hk).
Qed.

Lemma length_filter_sum {A} (p : A → bool) (l : list A) :
  Z.of_nat (length (List.filter p l)) =
  foldr (λ x n, (if p x then 1 else 0) + n) 0 l.
Proof.
  induction l as [|x l IH]; [done|].
  cbn [List.filter foldr]. destruct (p x); cbn [length]; lia.
Qed.

(** ** The 8-queens formulation: properties *)

Section queens.
Import EightQueensProblem.

Lemma valor_objetivo_body h e rs i j c :
  is_queens h e rs → 1 ≤ i ≤ 8 → 1 ≤ j ≤ 8 →
  (ri ← getitem (VRef e) (i - 1);
   rj ← getitem (VRef e) (j - 1);
   same ← py_eq ri rj;
   if same : bool then mret (c + 1)
   else
     d ← py_sub ri rj;
     if Z.abs d =? Z.abs (i - j) then mret (c + 1) else mret c) h
  = (h, Ret (c + if attack rs i j then 1 else 0)).
Proof.
  intros [Hh Hlen] Hi Hj.
  rewrite (bind_ret _ _ _ _ _ (getitem_list h e _ (i - 1) (VInt (queen_row rs i)) Hh ltac:(lia)
     ltac:(apply lookup_ints; lia))).
  rewrite (bind_ret _ _ _ _ _ (getitem_list h e _ (j - 1) (VInt (queen_row rs j)) Hh ltac:(lia)
     ltac:(apply lookup_ints; lia))).
  rewrite (bind_ret _ _ _ _ _ (py_eq_int _ _ _)).
  unfold attack.
  destruct (queen_row rs i =? queen_row rs j); [done|].
  cbn [py_sub]. rewrite (bind_ret _ _ _ _ _ (mret_run _ _)).
  destruct (_ =? _); by rewrite mret_run, ?Z.add_0_r.
Qed.

Lemma valor_objetivo_fold h e rs :
  is_queens h e rs →
  valor_objetivo (VRef e) h =
  (h, Ret (foldl (λ c i,
             foldl (λ c j, c + if attack rs i j then 1 else 0) c
               (range (i + 1) 9)) 0 (range 1 9))).
Proof.
  intros Hq. unfold valor_objetivo.
  apply (for_acc_pure _ (λ i c, foldl (λ c j, c + if attack rs i j then 1 else 0) c
               (range (i + 1) 9))).
  intros i c Hi%range_elem.
  apply (for_acc_pure _ (λ j c, c + if attack rs i j then 1 else 0)).
  intros j c' Hj%range_elem.
  apply valor_objetivo_body; [done|unfold N in *; lia..].
Qed.

Lemma attacking_pairs_fold rs :
  foldl (λ c i, foldl (λ c j, c + if attack rs i j then 1 else 0) c
               (range (i + 1) 9)) 0 (range 1 9) = attacking_pairs rs.
Proof.
  unfold attacking_pairs. rewrite length_filter_sum.
  do 2 (repeat match goal with
        | |- context [range ?a ?b] =>
            let l := eval vm_compute in (range a b) in
            change (range a b) with l
        end;
        cbn [foldl foldr list_prod List.map app fst snd Z.ltb Z.compare
             Pos.compare Pos.compare_cont andb]).
  lia.
Qed.

Lemma is_queens_lookup h e rs i :
  is_queens h e rs → 1 ≤ i ≤ 8 →
  (VInt <$> rs) !! Z.to_nat (i - 1) = Some (VInt (queen_row rs i)).
Proof. intros [_ Hlen] Hi. apply lookup_ints. lia. Qed.

Lemma queens_acciones_run h e rs :
  is_queens h e rs →
  acciones (VRef e) h =
  (<[fresh (dom h) := all_moves rs]> h, Ret (VRef (fresh (dom h)))).
Proof.
  intros Hq. pose proof Hq as [Hh Hlen]. unfold acciones.
  set (la := fresh (dom h)).
  assert (e ≠ la) as Hne by by eapply alloc_ne.
  rewrite (bind_ret _ _ _ _ _ (list_new_run h [])). fold la.
  erewrite bind_ret; [by rewrite mret_run|].
  apply (for_appending _ la (moves_in_column rs) _ h []).
  intros col acc Hcol%range_elem.
  apply (for_appending _ la (λ r, if queen_row rs col =? r then [] else [VPair r col])).
  intros r acc' Hr%range_elem.
  rewrite (bind_ret _ _ _ _ _ (getitem_list _ e _ (col - 1) _
    ltac:(by rewrite lookup_insert_ne) ltac:(unfold N in *; lia)
    (is_queens_lookup _ _ _ col Hq ltac:(unfold N in *; lia)))).
  rewrite (bind_ret _ _ _ _ _ (py_ne_int _ _ _)).
  destruct (queen_row rs col =? r); cbn [negb].
  - by rewrite mret_run, app_nil_r.
  - rewrite (append_list _ la acc') by apply lookup_insert_eq.
    by rewrite insert_insert_eq.
Qed.

Lemma moves_in_column_elem rs col v :
  v ∈ moves_in_column rs col ↔
  ∃ r, v = VPair r col ∧ 1 ≤ r ≤ 8 ∧ r ≠ queen_row rs col.
Proof.
  unfold moves_in_column. rewrite list_elem_of_bind. split.
  - intros (r & Hv & Hr%range_elem). exists r.
    destruct (Z.eqb_spec (queen_row rs col) r); [by apply elem_of_nil in Hv|].
    apply list_elem_of_singleton in Hv. split; [done|lia].
  - intros (r & -> & Hr & Hne). exists r. split; [|apply range_elem; lia].
    destruct (Z.eqb_spec (queen_row rs col) r); [congruence|]. by left.
Qed.

Lemma moves_in_column_length rs col :
  1 ≤ queen_row rs col ≤ 8 → length (moves_in_column rs col) = 7%nat.
Proof.
  unfold moves_in_column. generalize (queen_row rs col). intros r Hr.
  assert (r = 1 ∨ r = 2 ∨ r = 3 ∨ r = 4 ∨ r = 5 ∨ r = 6 ∨ r = 7 ∨ r = 8)
    as Hcases by lia.
  destruct_or!; subst r; reflexivity.
Qed.

Lemma row_in_range rs i :
  length rs = 8%nat → (∀ r, r ∈ rs → 1 ≤ r ≤ 8) → 1 ≤ i ≤ 8 →
  1 ≤ queen_row rs i ≤ 8.
Proof.
  intros Hlen Hrs Hi. apply Hrs. unfold queen_row.
  apply list_elem_of_lookup_total_2. lia.
Qed.

(** C6. For a state of eight ints in 1..8, [acciones] returns a new list of
    exactly 56 pairs and leaves the rest of the store as it was: the list is
    the concatenation, for the columns 1..8 in order, of the moves of that
    column, which are exactly the 7 pairs [(row, column)] with [row] in 1..8
    other than the row the queen of that column stands in. *)
Theorem queens_acciones_56 h e rs :
  is_queens h e rs → (∀ r, r ∈ rs → 1 ≤ r ≤ 8) →
  acciones (VRef e) h =
    (<[fresh (dom h) := all_moves rs]> h, Ret (VRef (fresh (dom h))))
  ∧ length (all_moves rs) = 56%nat
  ∧ all_moves rs = range 1 9 ≫= moves_in_column rs
  ∧ (∀ col, 1 ≤ col ≤ 8 → length (moves_in_column rs col) = 7%nat)
  ∧ (∀ col v, v ∈ moves_in_column rs col ↔
       ∃ r, v = VPair r col ∧ 1 ≤ r ≤ 8 ∧ r ≠ queen_row rs col).
Proof.
  intros Hq Hrs. pose proof Hq as [Hh Hlen].
  assert (∀ col, 1 ≤ col ≤ 8 → length (moves_in_column rs col) = 7%nat)
    as H7.
  { intros col Hcol. by apply moves_in_column_length, row_in_range. }
  split_and!; [by apply queens_acciones_run| |done|done|apply moves_in_column_elem].
  unfold all_moves. change (range 1 9) with [1; 2; 3; 4; 5; 6; 7; 8].
  cbn [mbind list_bind]. rewrite !length_app, !H7 by lia. reflexivity.
Qed.

(** C4. For a state of eight ints [valor_objetivo] returns the number of
    pairs of columns [i < j] in 1..8 whose queens share a row or have
    [|row_i - row_j| = |i - j|]; for the state of eight 1s that is 28.
    The store is only read. *)
Theorem queens_valor_objetivo_counts h e rs :
  is_queens h e rs →
  valor_objetivo (VRef e) h = (h, Ret (attacking_pairs rs))
  ∧ (rs = ones → valor_objetivo (VRef e) h = (h, Ret 28)).
Proof.
  intros Hq.
  assert (valor_objetivo (VRef e) h = (h, Ret (attacking_pairs rs))) as E.
  { by rewrite (valor_objetivo_fold h e rs Hq), attacking_pairs_fold. }
  split; [done|]. intros ->. by rewrite E.
Qed.

(** The state of eight 1s. *)
Lemma queens_valor_objetivo_counts_witness :
  let h : heap := {[1%positive := VInt <$> ones]} in
  valor_objetivo (VRef 1%positive) h = (h, Ret (attacking_pairs ones))
  ∧ (ones = ones → valor_objetivo (VRef 1%positive) h = (h, Ret 28)).
Proof.
  intros h. apply (queens_valor_objetivo_counts h 1%positive ones).
  split; [apply lookup_singleton_eq|reflexivity].
Defined.

(** C5 as it is written fails: on the state [1,3,5,7,2,4,6,8] the value
    returned is not 0. *)
Lemma queens_classical_not_zero :
  let h : heap := {[1%positive := VInt <$> classical]} in
  valor_objetivo (VRef 1%positive) h ≠ (h, Ret 0).
Proof.
  intros h E.
  assert ((valor_objetivo (VRef 1%positive) h).2 = Ret 0) as E2 by by rewrite E.
  vm_compute in E2. discriminate.
Qed.

(** C5, amended. On the state [1,3,5,7,2,4,6,8] [valor_objetivo] returns 1:
    the queens of columns 1 and 8 stand in rows 1 and 8, on one diagonal. *)
Theorem queens_classical_one_conflict h e :
  is_queens h e classical →
  valor_objetivo (VRef e) h = (h, Ret 1)
  ∧ attack classical 1 8 = true.
Proof.
  intros Hq. split; [|reflexivity].
  by rewrite (valor_objetivo_fold h e _ Hq), attacking_pairs_fold.
Qed.

(** The state [1,3,5,7,2,4,6,8] at location 1. *)
Lemma queens_classical_one_conflict_witness :
  let h : heap := {[1%positive := VInt <$> classical]} in
  valor_objetivo (VRef 1%positive) h = (h, Ret 1)
  ∧ attack classical 1 8 = true.
Proof.
  intros h. apply (queens_classical_one_conflict h 1%positive).
  split; [apply lookup_singleton_eq|reflexivity].
Defined.

(** C9. Given an initial list, [__init__] raises the ValueError on the
    length when the list has not exactly 8 items, and then the store is as it
    was and no instance is made; with 8 items it returns an instance whose
    [_initial] is a new list object with the same items, so that a later
    assignment to the caller's list leaves it as it is. *)
Theorem queens_init_length h l xs g :
  h !! l = Some xs →
  (length xs ≠ 8%nat →
     __init__ (Some (VRef l)) g h =
     (h, Raise (ValueError "Estado inicial debe tener longitud 8")))
  ∧ (length xs = 8%nat →
     let c := fresh (dom h) in
     __init__ (Some (VRef l)) g h =
       (<[c := xs]> h, Ret ({| _initial := VRef c |}, g))
     ∧ c ≠ l ∧ h ⊆ <[c := xs]> h
     ∧ ∀ i v h', setitem (VRef l) i v (<[c := xs]> h) = (h', Ret tt) →
                 h' !! c = Some xs).
Proof.
  intros Hl. unfold __init__.
  rewrite (bind_ret _ _ _ _ _ (len_list _ _ _ Hl)).
  assert (l ≠ fresh (dom h)) as Hne by by eapply alloc_ne.
  split.
  - intros Hlen. destruct (Z.eqb_spec (Z.of_nat (length xs)) N) as [E|E];
      [unfold N in E; lia|done].
  - intros Hlen. set (c := fresh (dom h)) in *. rewrite Hlen. change (Z.of_nat 8 =? N) with true. cbn [negb].
    rewrite (bind_ret _ _ _ _ _ (list_run _ _ _ Hl)). fold c.
    split_and!; [done|done|apply alloc_subseteq|].
    intros i v h' Hset. unfold setitem in Hset.
    rewrite lookup_insert_ne, Hl in Hset by done.
    destruct (index (length xs) i); [|done].
    injection Hset as <-. rewrite lookup_insert_ne by done.
    apply lookup_insert_eq.
Qed.

(** A list of seven rows is refused. *)
Lemma queens_init_length_witness :
  let h : heap := {[1%positive := VInt <$> [1; 2; 3; 4; 5; 6; 7]]} in
  __init__ (Some (VRef 1%positive)) (λ _, O) h =
    (h, Raise (ValueError "Estado inicial debe tener longitud 8")).
Proof.
  intros h.
  apply (queens_init_length h 1%positive (VInt <$> [1; 2; 3; 4; 5; 6; 7]) (λ _, O));
    [apply lookup_singleton_eq|cbn; lia].
Defined.

Lemma in_range_test (a lo hi : Z) :
  lo ≤ a ≤ hi → negb ((lo <=? a) && (a <=? hi)) = false.
Proof.
  intros Ha. destruct (Z.leb_spec lo a); [|lia].
  destruct (Z.leb_spec a hi); [done|lia].
Qed.

(** C10. For a state of eight ints and an action [(r, col)], both in 1..8,
    whose row is the one the queen of [col] already stands in, [resultado]
    raises nothing and returns a new list object with the items of the
    input, which stays as it was; the action is not among those that
    [acciones] lists for the state. *)
Theorem queens_resultado_same_row h e rs r col :
  is_queens h e rs → 1 ≤ r ≤ 8 → 1 ≤ col ≤ 8 → r = queen_row rs col →
  let c := fresh (dom h) in
  resultado (VRef e) (r, col) h = (<[c := VInt <$> rs]> h, Ret (VRef c))
  ∧ c ≠ e ∧ h ⊆ <[c := VInt <$> rs]> h
  ∧ is_queens (<[c := VInt <$> rs]> h) c rs
  ∧ VPair r col ∉ all_moves rs.
Proof.
  intros Hq Hr Hcol -> c. pose proof Hq as [Hh Hlen].
  assert (e ≠ c) as Hne by by eapply alloc_ne.
  split_and!; [|done|apply alloc_subseteq|split; [apply lookup_insert_eq|done]|].
  - unfold resultado. cbv beta iota.
    rewrite !in_range_test by (unfold N; lia).
    rewrite (bind_ret _ _ _ _ _ (list_run _ _ _ Hh)). fold c.
    erewrite bind_ret; [by rewrite mret_run|].
    rewrite (setitem_list _ c (VInt <$> rs)); [|apply lookup_insert_eq|].
    + rewrite insert_insert_eq. do 3 f_equal.
      apply list_insert_id. by eapply is_queens_lookup.
    + rewrite length_fmap. lia.
  - unfold all_moves. rewrite list_elem_of_bind.
    intros (col' & (r' & E & _ & Hne')%moves_in_column_elem & _).
    injection E as E1 E2. subst col' r'. done.
Qed.

(** Moving the queen of column 2 of [1,3,5,7,2,4,6,8] to row 3, where it is. *)
Lemma queens_resultado_same_row_witness :
  let h : heap := {[1%positive := VInt <$> classical]} in
  resultado (VRef 1%positive) (3, 2) h =
    (<[fresh (dom h) := VInt <$> classical]> h, Ret (VRef (fresh (dom h)))).
Proof.
  intros h.
  apply (queens_resultado_same_row h 1%positive classical 3 2);
    [split; [apply lookup_singleton_eq|reflexivity]|lia|lia|reflexivity].
Defined.

(** The enumeration for the state [1,3,5,7,2,4,6,8]. *)
Lemma queens_acciones_56_witness :
  let h : heap := {[1%positive := VInt <$> classical]} in
  acciones (VRef 1%positive) h =
    (<[fresh (dom h) := all_moves classical]> h, Ret (VRef (fresh (dom h))))
  ∧ length (all_moves classical) = 56%nat.
Proof.
  intros h.
  destruct (queens_acciones_56 h 1%positive classical) as (E & L & _);
    [split; [apply lookup_singleton_eq|reflexivity]| |by split].
  intros r Hr. unfold classical in Hr.
  repeat (apply elem_of_cons in Hr as [->|Hr]; [lia|]).
  by apply elem_of_nil in Hr.
Defined.

Lemma out_of_range_test (a lo hi : Z) :
  ¬ (lo ≤ a ≤ hi) → negb ((lo <=? a) && (a <=? hi)) = true.
Proof.
  intros Ha. destruct (Z.leb_spec lo a); [|done].
  destruct (Z.leb_spec a hi); [lia|done].
Qed.

(** X1. [resultado] checks the action before it touches the state: a row
    outside 1..8 raises [ValueError "Fila fuera de rango"], and a row inside
    1..8 with a column outside 1..8 raises
    [ValueError "Columna fuera de rango"]; this holds for any state argument,
    whatever it is, and the store is left as it was. *)
Theorem queens_resultado_range_errors (estado : val) (r col : Z) (h : heap) :
  (¬ (1 ≤ r ≤ 8) →
     resultado estado (r, col) h = (h, Raise (ValueError "Fila fuera de rango")))
  ∧ (1 ≤ r ≤ 8 → ¬ (1 ≤ col ≤ 8) →
     resultado estado (r, col) h =
       (h, Raise (ValueError "Columna fuera de rango"))).
Proof.
  unfold resultado. cbv beta iota. split.
  - intros Hr. by rewrite out_of_range_test by (unfold N; lia).
  - intros Hr Hcol. rewrite in_range_test by (unfold N; lia).
    by rewrite out_of_range_test by (unfold N; lia).
Qed.

(** Row 9 and column 0 on the classical state. *)
Lemma queens_resultado_range_errors_witness :
  let h : heap := {[1%positive := VInt <$> classical]} in
  resultado (VRef 1%positive) (9, 1) h =
    (h, Raise (ValueError "Fila fuera de rango"))
  ∧ resultado (VRef 1%positive) (1, 0) h =
    (h, Raise (ValueError "Columna fuera de rango")).
Proof.
  intros h. split.
  - apply (queens_resultado_range_errors (VRef 1%positive) 9 1 h). lia.
  - apply (queens_resultado_range_errors (VRef 1%positive) 1 0 h); lia.
Defined.

Lemma queens_resultado_run h e rs r col :
  is_ints h e rs → 1 ≤ r ≤ 8 → 1 ≤ col ≤ 8 →
  col ≤ Z.of_nat (length rs) →
  resultado (VRef e) (r, col) h =
  (<[fresh (dom h) := VInt <$> <[Z.to_nat (col - 1) := r]> rs]> h,
   Ret (VRef (fresh (dom h)))).
Proof.
  intros Hh Hr Hcol Hlen. unfold resultado. cbv beta iota.
  rewrite !in_range_test by (unfold N; lia).
  rewrite (bind_ret _ _ _ _ _ (list_run _ _ _ Hh)).
  erewrite bind_ret; [by rewrite mret_run|].
  rewrite (setitem_list _ _ (VInt <$> rs)); [|apply lookup_insert_eq|].
  - by rewrite insert_insert_eq, list_fmap_insert.
  - rewrite length_fmap. lia.
Qed.

Lemma queen_row_insert_eq rs r col :
  1 ≤ col ≤ Z.of_nat (length rs) →
  queen_row (<[Z.to_nat (col - 1) := r]> rs) col = r.
Proof.
  intros Hcol. unfold queen_row.
  apply list_lookup_total_insert_eq. lia.
Qed.

Lemma queen_row_insert_ne rs r col col' :
  1 ≤ col → 1 ≤ col' → col' ≠ col →
  queen_row (<[Z.to_nat (col - 1) := r]> rs) col' = queen_row rs col'.
Proof.
  intros Hcol Hcol' Hne. unfold queen_row.
  apply list_lookup_total_insert_ne. lia.
Qed.

Lemma rows_in_board_insert rs r k :
  rows_in_board rs → 1 ≤ r ≤ 8 → rows_in_board (<[k := r]> rs).
Proof.
  intros Hrs Hr x Hx. apply list_elem_of_lookup in Hx as [i Hi].
  destruct (decide (i = k)) as [->|Hne].
  - destruct (decide (k < length rs)%nat) as [Hk|Hk].
    + rewrite list_lookup_insert_eq in Hi by done. by injection Hi as <-.
    + rewrite list_insert_ge in Hi by lia.
      apply Hrs. apply list_elem_of_lookup. eauto.
  - rewrite list_lookup_insert_ne in Hi by done.
    apply Hrs. apply list_elem_of_lookup. eauto.
Qed.

(** X2. For a state of eight ints and an action [(r, col)] with both parts in
    1..8, [resultado] returns a new list that holds the state with the entry
    of column [col] set to [r]: the queen of [col] is now in row [r], every
    other column keeps its queen, the rows stay on the board if they were,
    and the input list is still in the store, unchanged. *)
Theorem queens_resultado_sets_row h e rs r col :
  is_queens h e rs → 1 ≤ r ≤ 8 → 1 ≤ col ≤ 8 →
  let c := fresh (dom h) in
  let rs' := <[Z.to_nat (col - 1) := r]> rs in
  let h' := <[c := VInt <$> rs']> h in
  resultado (VRef e) (r, col) h = (h', Ret (VRef c))
  ∧ is_queens h' c rs' ∧ c ≠ e ∧ is_queens h' e rs
  ∧ queen_row rs' col = r
  ∧ (∀ col', 1 ≤ col' → col' ≠ col → queen_row rs' col' = queen_row rs col')
  ∧ (rows_in_board rs → rows_in_board rs').
Proof.
  intros [Hh Hlen] Hr Hcol c rs' h'.
  assert (e ≠ c) as Hne by by eapply alloc_ne.
  split_and!.
  - apply queens_resultado_run; [done..|lia].
  - split; [apply lookup_insert_eq|]. unfold rs'. by rewrite length_insert.
  - done.
  - split; [|done]. unfold h'. by rewrite lookup_insert_ne.
  - apply queen_row_insert_eq. lia.
  - intros col' Hcol' Hne'. by apply queen_row_insert_ne; [lia|..].
  - intros Hrs. by apply rows_in_board_insert.
Qed.

(** Moving the queen of column 1 of the classical state to row 5. *)
Lemma queens_resultado_sets_row_witness :
  let h : heap := {[1%positive := VInt <$> classical]} in
  resultado (VRef 1%positive) (5, 1) h =
    (<[fresh (dom h) := VInt <$> [5; 3; 5; 7; 2; 4; 6; 8]]> h,
     Ret (VRef (fresh (dom h)))).
Proof.
  intros h.
  apply (queens_resultado_sets_row h 1%positive classical 5 1);
    [split; [apply lookup_singleton_eq|reflexivity]|lia|lia].
Defined.

(** X3. Moving back undoes a move: after an action [(r, col)] of the moves of
    a state on the board, the action [(queen_row rs col, col)] on the result
    returns a list whose contents are those of the first state; both calls
    return new lists and the first state is untouched. *)
Theorem queens_resultado_round_trip h e rs r col :
  is_queens h e rs → rows_in_board rs → VPair r col ∈ all_moves rs →
  ∃ h1 c1 h2 c2,
    resultado (VRef e) (r, col) h = (h1, Ret (VRef c1))
    ∧ resultado (VRef c1) (queen_row rs col, col) h1 = (h2, Ret (VRef c2))
    ∧ is_queens h2 c2 rs ∧ is_queens h2 e rs
    ∧ c1 ≠ e ∧ c2 ≠ e ∧ c2 ≠ c1.
Proof.
  intros Hq Hrs Hin. pose proof Hq as [Hh Hlen].
  unfold all_moves in Hin. apply list_elem_of_bind in Hin as (col' & Hin & Hcol).
  apply moves_in_column_elem in Hin as (r' & [= -> ->] & Hr & Hne).
  apply range_elem in Hcol.
  pose proof (row_in_range rs col' Hlen Hrs ltac:(lia)) as Hrow.
  set (c1 := fresh (dom h)).
  set (rs1 := <[Z.to_nat (col' - 1) := r']> rs).
  set (h1 := <[c1 := VInt <$> rs1]> h).
  set (c2 := fresh (dom h1)).
  assert (<[Z.to_nat (col' - 1) := queen_row rs col']> rs1 = rs) as Hback.
  { unfold rs1. rewrite list_insert_insert_eq. apply list_insert_id.
    unfold queen_row. apply list_lookup_lookup_total_lt. lia. }
  assert (e ≠ c1) as Hne1 by by eapply alloc_ne.
  assert (h1 !! e = Some (VInt <$> rs)) as Hh1.
  { unfold h1. by rewrite lookup_insert_ne. }
  assert (e ≠ c2) as Hne2 by by eapply alloc_ne.
  assert (c1 ≠ c2) as Hne12.
  { eapply alloc_ne. apply lookup_insert_eq. }
  exists h1, c1, (<[c2 := VInt <$> rs]> h1), c2. split_and!; try done.
  - apply queens_resultado_run; [done|lia..].
  - rewrite (queens_resultado_run h1 c1 rs1); [by rewrite Hback| |lia..|].
    + apply lookup_insert_eq.
    + unfold rs1. rewrite length_insert. lia.
  - split; [apply lookup_insert_eq|done].
  - split; [|done]. by rewrite lookup_insert_ne.
Qed.

Lemma classical_in_board : rows_in_board classical.
Proof.
  intros r Hr. unfold classical in Hr.
  repeat (apply elem_of_cons in Hr as [->|Hr]; [lia|]).
  by apply elem_of_nil in Hr.
Qed.

(** The queen of column 2 of the classical state moved to row 4 and back to
    row 3. *)
Lemma queens_resultado_round_trip_witness :
  let h : heap := {[1%positive := VInt <$> classical]} in
  ∃ h1 c1 h2 c2,
    resultado (VRef 1%positive) (4, 2) h = (h1, Ret (VRef c1))
    ∧ resultado (VRef c1) (3, 2) h1 = (h2, Ret (VRef c2))
    ∧ is_queens h2 c2 classical.
Proof.
  intros h.
  destruct (queens_resultado_round_trip h 1%positive classical 4 2)
    as (h1 & c1 & h2 & c2 & E1 & E2 & Hq & _);
    [split; [apply lookup_singleton_eq|reflexivity]|apply classical_in_board
    |vm_compute;
     repeat first [apply list_elem_of_here | apply list_elem_of_further]|].
  exists h1, c1, h2, c2. split_and!; assumption.
Defined.

Lemma randint_board (g : rng) : 1 ≤ (randint 1 8 g).1 ≤ 8.
Proof.
  unfold randint, randbelow. cbn [fst]. change (8 - 1 + 1) with 8.
  pose proof (Z.mod_pos_bound (Z.of_nat (g 0%nat)) 8 ltac:(lia)). lia.
Qed.

Lemma drawn_rows_board (n : nat) :
  ∀ rs g, rows_in_board rs →
  rows_in_board (drawn_rows n rs g).1
  ∧ length (drawn_rows n rs g).1 = (length rs + n)%nat.
Proof.
  induction n as [|n IH]; intros rs g Hrs; cbn [drawn_rows].
  - cbn [fst]. split; [done|lia].
  - pose proof (randint_board g) as Hr.
    destruct (randint 1 8 g) as [r g1]. cbn [fst] in Hr.
    destruct (IH (rs ++ [r]) g1) as [Hb Hl].
    + intros x [Hx|Hx%list_elem_of_singleton]%elem_of_app; [by apply Hrs|lia].
    + split; [done|]. rewrite Hl, length_app. cbn. lia.
Qed.

Lemma draw_loop (ks : list Z) (h : heap) :
  ∀ (rs : list Z) (g : rng),
  for_acc ks (VInt <$> rs, g) (λ _ '(rows, g),
    let '(r, g) := randint 1 N g in mret (rows ++ [VInt r], g)) h
  = (h, Ret (VInt <$> (drawn_rows (length ks) rs g).1,
             (drawn_rows (length ks) rs g).2)).
Proof.
  induction ks as [|k ks IH]; intros rs g; [done|].
  cbn [for_acc length drawn_rows]. change N with 8.
  destruct (randint 1 8 g) as [r g1].
  rewrite (bind_ret _ _ _ _ _ (mret_run _ _)).
  replace ((VInt <$> rs) ++ [VInt r]) with (VInt <$> (rs ++ [r]))
    by (by rewrite fmap_app).
  apply IH.
Qed.

(** X4. Whatever the random stream, [estado_aleatorio] raises nothing and
    returns a new list of eight ints, each in 1..8, and leaves the objects of
    the store untouched; [__init__] without an argument stores exactly that
    list as the initial state. *)
Theorem queens_estado_aleatorio_board (g : rng) (h : heap) :
  ∃ rs g',
    let c := fresh (dom h) in
    let h' := <[c := VInt <$> rs]> h in
    estado_aleatorio g h = (h', Ret (VRef c, g'))
    ∧ __init__ None g h = (h', Ret ({| _initial := VRef c |}, g'))
    ∧ is_queens h' c rs
    ∧ rows_in_board rs
    ∧ h !! c = None
    ∧ h ⊆ h'.
Proof.
  destruct (drawn_rows_board 8 [] g) as [Hb Hl].
  { by intros r Hr%elem_of_nil. }
  exists (drawn_rows 8 [] g).1, (drawn_rows 8 [] g).2. intros c h'.
  assert (estado_aleatorio g h = (h', Ret (VRef c, (drawn_rows 8 [] g).2)))
    as Erun.
  { unfold estado_aleatorio.
    rewrite (bind_ret _ _ _ _ _ (draw_loop (range 0 N) h [] g)).
    cbv beta iota.
    by rewrite (bind_ret _ _ _ _ _ (list_new_run _ _)). }
  split_and!.
  - done.
  - unfold __init__. by rewrite (bind_ret _ _ _ _ _ Erun).
  - split; [apply lookup_insert_eq|done].
  - done.
  - apply alloc_fresh.
  - apply alloc_subseteq.
Qed.

(** X5. [estado_inicial] returns a new list with the contents of the stored
    initial state, not the stored list itself: an assignment to any index of
    the returned list leaves the stored list as it was. *)
Theorem queens_estado_inicial_copy (s : self) (h : heap) (l : loc)
    (xs : list val) :
  _initial s = VRef l → h !! l = Some xs →
  let c := fresh (dom h) in
  let h' := <[c := xs]> h in
  estado_inicial s h = (h', Ret (VRef c))
  ∧ c ≠ l ∧ h ⊆ h'
  ∧ (∀ i v h2, setitem (VRef c) i v h' = (h2, Ret tt) → h2 !! l = Some xs).
Proof.
  intros Hs Hl c h'.
  assert (l ≠ c) as Hne by by eapply alloc_ne.
  split_and!; [|done|apply alloc_subseteq|].
  - unfold estado_inicial. rewrite Hs. by apply list_run.
  - intros i v h2 Hset. unfold setitem, h' in Hset.
    rewrite lookup_insert_eq in Hset.
    destruct (index (length xs) i); [|done].
    injection Hset as <-. by rewrite !lookup_insert_ne.
Qed.

(** The initial state of an instance that stores the classical state. *)
Lemma queens_estado_inicial_copy_witness :
  let h : heap := {[1%positive := VInt <$> classical]} in
  estado_inicial {| _initial := VRef 1%positive |} h =
    (<[fresh (dom h) := VInt <$> classical]> h, Ret (VRef (fresh (dom h)))).
Proof.
  intros h.
  apply (queens_estado_inicial_copy {| _initial := VRef 1%positive |} h
           1%positive (VInt <$> classical));
    [reflexivity|apply lookup_singleton_eq].
Defined.

Lemma filter_and_length {A} (p q : A → bool) (l : list A) :
  (length (List.filter (λ x, p x && q x) l) ≤ length (List.filter p l))%nat.
Proof.
  induction l as [|x l IH]; [done|]. cbn [List.filter].
  destruct (p x), (q x); cbn; lia.
Qed.

Lemma filter_length_0 {A} (p : A → bool) (l : list A) :
  length (List.filter p l) = 0%nat ↔ ∀ x, x ∈ l → p x = false.
Proof.
  induction l as [|x l IH]; cbn [List.filter].
  - split; [by intros _ x Hx%elem_of_nil|done].
  - destruct (p x) eqn:Ex; cbn [length].
    + split; [done|]. intros Hall. rewrite Hall in Ex; [done|by left].
    + rewrite IH. split.
      * intros Hall y [->|Hy]%elem_of_cons; [done|by apply Hall].
      * intros Hall y Hy. apply Hall. by right.
Qed.

(** X6. On a state of eight ints [valor_objetivo] returns a value between 0
    and 28, and the value is 0 exactly when no two columns hold queens that
    attack each other. *)
Theorem queens_valor_objetivo_zero_iff h e rs :
  is_queens h e rs →
  ∃ v, valor_objetivo (VRef e) h = (h, Ret v)
       ∧ 0 ≤ v ≤ 28
       ∧ (v = 0 ↔ ∀ i j, 1 ≤ i → i < j → j ≤ 8 → attack rs i j = false).
Proof.
  intros Hq. exists (attacking_pairs rs). split_and!.
  - by rewrite (valor_objetivo_fold h e rs Hq), attacking_pairs_fold.
  - unfold attacking_pairs. lia.
  - unfold attacking_pairs.
    pose proof (filter_and_length (λ p, p.1 <? p.2) (λ p, attack rs p.1 p.2)
                  (list_prod (range 1 9) (range 1 9))) as Hle.
    change (length (List.filter (λ p : Z * Z, p.1 <? p.2)
                      (list_prod (range 1 9) (range 1 9)))) with 28%nat in Hle.
    lia.
  - unfold attacking_pairs.
    rewrite <- Nat2Z.inj_0, Nat2Z.inj_iff, filter_length_0. split.
    + intros Hall i j Hi Hij Hj.
      specialize (Hall (i, j)). cbn [fst snd] in Hall.
      destruct (Z.ltb_spec i j); [|lia]. apply Hall.
      apply list_elem_of_In, in_prod; apply list_elem_of_In, range_elem; lia.
    + intros Hall [i j] Hin. cbn [fst snd].
      apply list_elem_of_In, in_prod_iff in Hin as [Hi Hj].
      apply list_elem_of_In, range_elem in Hi.
      apply list_elem_of_In, range_elem in Hj.
      destruct (Z.ltb_spec i j); [|done]. apply Hall; lia.
Qed.

(** The value of the classical state lies between 0 and 28. *)
Lemma queens_valor_objetivo_zero_iff_witness :
  let h : heap := {[1%positive := VInt <$> classical]} in
  ∃ v, valor_objetivo (VRef 1%positive) h = (h, Ret v) ∧ 0 ≤ v ≤ 28.
Proof.
  intros h.
  destruct (queens_valor_objetivo_zero_iff h 1%positive classical)
    as (v & E & Hv & _); [split; [apply lookup_singleton_eq|reflexivity]|].
  exists v. split; assumption.
Defined.

Lemma range_split (a x b : Z) :
  a ≤ x < b → range a b = range a x ++ x :: range (x + 1) b.
Proof.
  intros Hx. unfold range.
  replace (b - a) with ((x - a) + (b - x)) by lia.
  rewrite seqZ_app by lia. f_equal.
  replace (a + (x - a)) with x by lia.
  rewrite seqZ_cons by lia. f_equal. f_equal; lia.
Qed.

(** A loop stops at the first round that raises. *)
Lemma for_acc_raise {A S} (pre post : list A) (x : A) (f : A → S → S)
    (body : A → S → M S) (h : heap) (s : S) (e : exn) :
  (∀ y s, y ∈ pre → body y s h = (h, Ret (f y s))) →
  (∀ s, body x s h = (h, Raise e)) →
  for_acc (pre ++ x :: post) s body h = (h, Raise e).
Proof.
  revert s. induction pre as [|y pre IH]; intros s Hpre Hx; cbn [app for_acc].
  - by rewrite (bind_raise _ _ _ _ _ (Hx s)).
  - rewrite (bind_ret _ _ _ _ _ (Hpre y s ltac:(left))).
    apply IH; [|done]. intros z t Hz. apply Hpre. by right.
Qed.

Lemma getitem_list_out (h : heap) (l : loc) (xs : list val) (i : Z) :
  h !! l = Some xs → Z.of_nat (length xs) ≤ i →
  getitem (VRef l) i h = (h, Raise (IndexError "list index out of range")).
Proof.
  intros E Hi. unfold getitem.
  rewrite (bind_ret _ _ _ _ _ (items_list _ _ _ E)).
  by rewrite index_out.
Qed.

Lemma valor_objetivo_body_ints h e rs i j c :
  is_ints h e rs → 1 ≤ i ≤ Z.of_nat (length rs) →
  1 ≤ j ≤ Z.of_nat (length rs) →
  (ri ← getitem (VRef e) (i - 1);
   rj ← getitem (VRef e) (j - 1);
   same ← py_eq ri rj;
   if same : bool then mret (c + 1)
   else
     d ← py_sub ri rj;
     if Z.abs d =? Z.abs (i - j) then mret (c + 1) else mret c) h
  = (h, Ret (c + if attack rs i j then 1 else 0)).
Proof.
  intros Hh Hi Hj.
  rewrite (bind_ret _ _ _ _ _ (getitem_list h e _ (i - 1)
     (VInt (queen_row rs i)) Hh ltac:(lia) ltac:(apply lookup_ints; lia))).
  rewrite (bind_ret _ _ _ _ _ (getitem_list h e _ (j - 1)
     (VInt (queen_row rs j)) Hh ltac:(lia) ltac:(apply lookup_ints; lia))).
  rewrite (bind_ret _ _ _ _ _ (py_eq_int _ _ _)).
  unfold attack.
  destruct (queen_row rs i =? queen_row rs j); [done|].
  cbn [py_sub]. rewrite (bind_ret _ _ _ _ _ (mret_run _ _)).
  destruct (_ =? _); by rewrite mret_run, ?Z.add_0_r.
Qed.

(** X7. [valor_objetivo] does not check the length of the state: on a list of
    fewer than eight ints the loops reach an index the list does not have and
    the call raises [IndexError "list index out of range"], with the store
    unchanged. *)
Theorem queens_valor_objetivo_short h e rs :
  is_ints h e rs → (length rs < 8)%nat →
  valor_objetivo (VRef e) h = (h, Raise (IndexError "list index out of range")).
Proof.
  intros Hh Hlen. unfold valor_objetivo. change (N + 1) with 9.
  rewrite (range_split 1 1 9) by lia.
  apply (for_acc_raise [] _ 1 (λ _ c, c)); [by intros y s Hy%elem_of_nil|].
  intros s. change (1 + 1) with 2.
  destruct (decide (length rs = 0%nat)) as [Hz|Hnz].
  - rewrite (range_split 2 2 9) by lia.
    apply (for_acc_raise [] _ 2 (λ _ c, c)); [by intros y t Hy%elem_of_nil|].
    intros t. erewrite bind_raise; [done|].
    apply (getitem_list_out _ _ _ _ Hh). rewrite length_fmap. lia.
  - rewrite (range_split 2 (Z.of_nat (length rs) + 1) 9) by lia.
    apply (for_acc_raise _ _ _ (λ j c, c + if attack rs 1 j then 1 else 0)).
    + intros j t Hj%range_elem. apply valor_objetivo_body_ints; [done|lia..].
    + intros t.
      rewrite (bind_ret _ _ _ _ _ (getitem_list h e _ (1 - 1)
        (VInt (queen_row rs 1)) Hh ltac:(lia) ltac:(apply lookup_ints; lia))).
      erewrite bind_raise; [done|].
      apply (getitem_list_out _ _ _ _ Hh). rewrite length_fmap. lia.
Qed.

(** A state of seven queens. *)
Lemma queens_valor_objetivo_short_witness :
  let h : heap := {[1%positive := VInt <$> [1; 2; 3; 4; 5; 6; 7]]} in
  valor_objetivo (VRef 1%positive) h =
    (h, Raise (IndexError "list index out of range")).
Proof.
  intros h.
  apply (queens_valor_objetivo_short h 1%positive [1; 2; 3; 4; 5; 6; 7]);
    [apply lookup_singleton_eq|cbn; lia].
Defined.

(** X8. [resultado] does not check the length of the state either: with a row
    and a column in 1..8 and a list shorter than the column, the copy is made
    and the assignment to it raises [IndexError]; the input list is
    untouched. *)
Theorem queens_resultado_short h e rs r col :
  is_ints h e rs → 1 ≤ r ≤ 8 → 1 ≤ col ≤ 8 →
  Z.of_nat (length rs) < col →
  let h' := <[fresh (dom h) := VInt <$> rs]> h in
  resultado (VRef e) (r, col) h =
    (h', Raise (IndexError "list assignment index out of range"))
  ∧ h ⊆ h'.
Proof.
  intros Hh Hr Hcol Hlen h'. split; [|apply alloc_subseteq].
  unfold resultado. cbv beta iota.
  rewrite !in_range_test by (unfold N; lia).
  rewrite (bind_ret _ _ _ _ _ (list_run _ _ _ Hh)).
  erewrite bind_raise; [done|].
  unfold setitem. rewrite lookup_insert_eq.
  rewrite index_out; [done|]. rewrite length_fmap. lia.
Qed.

(** Column 8 of a state of seven queens. *)
Lemma queens_resultado_short_witness :
  let h : heap := {[1%positive := VInt <$> [1; 2; 3; 4; 5; 6; 7]]} in
  resultado (VRef 1%positive) (1, 8) h =
    (<[fresh (dom h) := VInt <$> [1; 2; 3; 4; 5; 6; 7]]> h,
     Raise (IndexError "list assignment index out of range")).
Proof.
  intros h.
  apply (queens_resultado_short h 1%positive [1; 2; 3; 4; 5; 6; 7] 1 8);
    [apply lookup_singleton_eq|lia|lia|cbn; lia].
Defined.

End queens.

(** ** The 8-puzzle formulation: properties *)

Section puzzle.
Import EightPuzzleProblem.

Lemma for_acc_inv {A S} (I : heap → S → Prop) (xs : list A)
    (body : A → S → M S) (h : heap) (s : S) :
  I h s →
  (∀ x s h, x ∈ xs → I h s → ∃ h' s', body x s h = (h', Ret s') ∧ I h' s') →
  ∃ h' s', for_acc xs s body h = (h', Ret s') ∧ I h' s'.
Proof.
  revert h s. induction xs as [|x xs IH]; intros h s HI Hb.
  - by exists h, s.
  - destruct (Hb x s h ltac:(left) HI) as (h1 & s1 & E1 & HI1).
    destruct (IH h1 s1 HI1) as (h2 & s2 & E2 & HI2).
    { intros y t k Hy. apply Hb. by right. }
    exists h2, s2. split; [|done]. cbn [for_acc]. by rewrite (bind_ret _ _ _ _ _ E1).
Qed.

(** Copying the items of a row of ints *)
Lemma deepcopy_ints n (zs : list Z) (y : loc) (memo : gmap loc loc) (hb : heap) acc :
  for_acc (VInt <$> zs) memo (λ a memo,
      '(b, memo) ← deepcopy_ n a memo; append (VRef y) b;; mret memo)
    (<[y := acc]> hb)
  = (<[y := acc ++ (VInt <$> zs)]> hb, Ret memo).
Proof.
  revert acc. induction zs as [|z zs IH]; intros acc.
  - cbn. by rewrite app_nil_r.
  - cbn [fmap list_fmap for_acc].
    erewrite bind_ret; [|].
    2:{ erewrite bind_ret; [|by destruct n]. cbv beta iota.
        erewrite bind_ret; [by rewrite mret_run|].
        apply append_list, lookup_insert_eq. }
    rewrite insert_insert_eq. fold (@fmap list _ _ _ VInt zs).
    rewrite IH. by rewrite <- app_assoc.
Qed.

Lemma deepcopy_row n (h : heap) (r : loc) (zs : list Z) (memo : gmap loc loc) :
  h !! r = Some (VInt <$> zs) → memo !! r = None →
  deepcopy_ (S n) (VRef r) memo h =
  (<[fresh (dom h) := VInt <$> zs]> h,
   Ret (VRef (fresh (dom h)), <[r := fresh (dom h)]> memo)).
Proof.
  intros Hr Hm. cbn [deepcopy_]. rewrite Hm.
  set (y := fresh (dom h)).
  assert (r ≠ y) by by eapply alloc_ne.
  erewrite bind_ret; [|done]. cbv beta zeta. fold y.
  erewrite bind_ret; [|apply items_list; by rewrite lookup_insert_ne].
  erewrite bind_ret; [|apply deepcopy_ints].
  by rewrite mret_run.
Qed.

(** Rows that a step does not touch stay rows of the same content. *)
Lemma rows_frame (h h' : heap) (rows : list loc) (g : list (list Z)) :
  Forall2 (λ r zs, h !! r = Some (VInt <$> zs)) rows g →
  (∀ r, r ∈ rows → h' !! r = h !! r) →
  Forall2 (λ r zs, h' !! r = Some (VInt <$> zs)) rows g.
Proof.
  intros Hg Hsame. apply Forall2_same_length_lookup in Hg as [Hlen Hg].
  apply Forall2_same_length_lookup. split; [done|].
  intros i r zs Hr Hzs. rewrite Hsame; [eauto|].
  apply list_elem_of_lookup. eauto.
Qed.

Lemma deepcopy_rows n (y : loc) (rows : list loc) :
  ∀ (g : list (list Z)) (h : heap) (memo : gmap loc loc) (copied : list loc),
  Forall2 (λ r zs, h !! r = Some (VInt <$> zs)) rows g →
  (∀ r, r ∈ rows → memo !! r = None) → NoDup rows → y ∉ rows →
  h !! y = Some (VRef <$> copied) →
  ∃ h' memo' rows',
    for_acc (VRef <$> rows) memo (λ a memo,
        '(b, memo) ← deepcopy_ (S n) a memo; append (VRef y) b;; mret memo) h
      = (h', Ret memo')
    ∧ h' !! y = Some (VRef <$> (copied ++ rows'))
    ∧ Forall2 (λ r zs, h' !! r = Some (VInt <$> zs)) rows' g
    ∧ (∀ l, l ∈ rows' → h !! l = None)
    ∧ NoDup rows'
    ∧ (∀ l, l ≠ y → l ∉ rows' → h' !! l = h !! l).
Proof.
  induction rows as [|r rows IH]; intros g h memo copied Hg Hmemo Hnd Hy Hhy.
  - apply Forall2_nil_inv_l in Hg as ->.
    exists h, memo, []. rewrite app_nil_r.
    split_and!; [done|done|constructor|by intros l ?%elem_of_nil|constructor|done].
  - apply Forall2_cons_inv_l in Hg as (zs & g' & Hr & Hg & ->).
    apply NoDup_cons in Hnd as [Hr_rows Hnd].
    apply not_elem_of_cons in Hy as [Hyr Hy].
    set (c := fresh (dom h)).
    assert (h !! c = None) as Hc by apply alloc_fresh.
    assert (y ≠ c) as Hyc by congruence.
    set (h1 := <[c := VInt <$> zs]> h).
    set (h2 := <[y := VRef <$> (copied ++ [c])]> h1).
    assert (∀ l, l ≠ y → l ≠ c → h2 !! l = h !! l) as Hframe.
    { intros l ? ?. unfold h2, h1. by rewrite !lookup_insert_ne. }
    assert (∀ l, l ∈ rows → l ≠ y ∧ l ≠ c) as Hrows.
    { intros l Hl. split; [by intros ->|].
      intros ->. eapply Forall2_Forall_l with (Q := λ l, is_Some (h !! l)) in Hg.
      - rewrite Forall_forall in Hg. apply Hg in Hl. rewrite Hc in Hl.
        by apply is_Some_None in Hl.
      - apply Forall_true. intros zs' l' E. by rewrite E. }
    destruct (IH g' h2 (<[r := c]> memo) (copied ++ [c]))
      as (h' & memo' & rows' & Erun & Hy' & Hg' & Hfresh & Hnd' & Hframe');
      [| | done | done | apply lookup_insert_eq |].
    { eapply rows_frame; [done|]. intros l Hl.
      destruct (Hrows l Hl). by apply Hframe. }
    { intros l Hl. rewrite lookup_insert_ne; [apply Hmemo; by right|].
      by intros ->. }
    assert (c ∉ rows') as Hc_rows.
    { intros Hin. apply Hfresh in Hin. unfold h2, h1 in Hin.
      by rewrite lookup_insert_ne, lookup_insert_eq in Hin. }
    exists h', memo', (c :: rows'). split_and!.
    + cbn [fmap list_fmap for_acc].
      erewrite bind_ret; [exact Erun|].
      erewrite bind_ret; [|apply deepcopy_row; [done|apply Hmemo; by left]].
      cbv beta iota. fold c h1.
      erewrite bind_ret; [by rewrite mret_run|].
      rewrite (append_list h1 y (VRef <$> copied)) by (unfold h1; by rewrite lookup_insert_ne).
      unfold h2. by rewrite fmap_app.
    + by rewrite Hy', <- app_assoc.
    + constructor; [|done].
      rewrite Hframe' by done. unfold h2, h1.
      by rewrite lookup_insert_ne, lookup_insert_eq.
    + intros l [->|Hl]%elem_of_cons; [done|].
      apply Hfresh in Hl. unfold h2, h1 in Hl.
      by apply lookup_insert_None in Hl as [[? _]%lookup_insert_None _].
    + by constructor.
    + intros l Hly [Hlc Hl]%not_elem_of_cons.
      rewrite Hframe' by done. by apply Hframe.
Qed.

Lemma deepcopy_grid (h : heap) (x : loc) (rows : list loc) (g : list (list Z)) :
  is_grid h x rows g → NoDup (x :: rows) →
  ∃ h' y rows',
    deepcopy (VRef x) h = (h', Ret (VRef y))
    ∧ is_grid h' y rows' g
    ∧ NoDup (y :: rows')
    ∧ (∀ l, l ∈ y :: rows' → h !! l = None)
    ∧ (∀ l, l ∉ y :: rows' → h' !! l = h !! l).
Proof.
  intros [Hx Hg] [Hx_rows Hnd]%NoDup_cons.
  set (y := fresh (dom h)).
  assert (h !! y = None) as Hy by apply alloc_fresh.
  assert (x ≠ y) as Hxy by congruence.
  set (h1 := <[y := []]> h).
  assert (y ∉ rows) as Hy_rows.
  { intros Hin. eapply Forall2_Forall_l with (Q := λ l, is_Some (h !! l)) in Hg.
    - rewrite Forall_forall in Hg. apply Hg in Hin. rewrite Hy in Hin.
      by apply is_Some_None in Hin.
    - apply Forall_true. intros zs' l' E. by rewrite E. }
  destruct (deepcopy_rows 998 y rows g h1 (<[x := y]> ∅) [])
    as (h' & memo' & rows' & Erun & Hy' & Hg' & Hfresh & Hnd' & Hframe');
    [| |done|done|apply lookup_insert_eq|].
  { eapply rows_frame; [done|]. intros l Hl. unfold h1.
    rewrite lookup_insert_ne; [done|]. by intros <-. }
  { intros l Hl. rewrite lookup_insert_ne; [done|]. by intros ->. }
  assert (∀ l, l ∈ rows' → h !! l = None ∧ l ≠ y) as Hrows'.
  { intros l Hl. apply Hfresh in Hl. unfold h1 in Hl.
    apply lookup_insert_None in Hl as [? ?]. done. }
  exists h', y, rows'. split_and!.
  - unfold deepcopy, recursion_limit.
    erewrite bind_ret; cycle 1.
    { change 1000%nat with (S (S 998)). cbn [deepcopy_]. rewrite lookup_empty.
      erewrite bind_ret; [|done]. cbv beta zeta. fold y h1.
      erewrite bind_ret; [|apply items_list; unfold h1; by rewrite lookup_insert_ne].
      erewrite bind_ret; [|exact Erun].
      by rewrite mret_run. }
    done.
  - done.
  - constructor; [|done]. intros Hin. by destruct (Hrows' _ Hin).
  - intros l [->|Hl]%elem_of_cons; [done|]. by destruct (Hrows' _ Hl).
  - intros l [Hly Hl]%not_elem_of_cons. rewrite Hframe' by done.
    unfold h1. by rewrite lookup_insert_ne.
Qed.

Lemma for_ret_pure {A R} (xs : list A) (f : A → option R)
    (body : A → M (option R)) (h : heap) :
  (∀ x, x ∈ xs → body x h = (h, Ret (f x))) →
  for_ret xs body h = (h, Ret (first_some f xs)).
Proof.
  induction xs as [|x xs IH]; intros Hb; [done|].
  cbn [for_ret first_some].
  rewrite (bind_ret _ _ _ _ _ (Hb x ltac:(left))).
  destruct (f x); [done|]. apply IH. intros y Hy. apply Hb. by right.
Qed.

Lemma valid_grid_inv g :
  valid_grid g →
  ∃ a b c d e f g' h i,
    g = [[a; b; c]; [d; e; f]; [g'; h; i]]
    ∧ [a; b; c; d; e; f; g'; h; i] ≡ₚ range 0 9.
Proof.
  intros (Hlen & Hrows & Hperm).
  destruct g as [|r0 [|r1 [|r2 [|? ?]]]]; [discriminate Hlen..| |discriminate Hlen].
  apply Forall_cons in Hrows as [Hl0 Hrows].
  apply Forall_cons in Hrows as [Hl1 Hrows].
  apply Forall_cons in Hrows as [Hl2 _].
  destruct r0 as [|a [|b [|c [|? ?]]]]; [discriminate Hl0..| |discriminate Hl0].
  destruct r1 as [|d [|e [|f [|? ?]]]]; [discriminate Hl1..| |discriminate Hl1].
  destruct r2 as [|g' [|h [|i [|? ?]]]]; [discriminate Hl2..| |discriminate Hl2].
  by exists a, b, c, d, e, f, g', h, i.
Qed.

Lemma cell_Some g r c v :
  cell g r c = Some v ↔
  0 ≤ r ∧ 0 ≤ c ∧ ∃ zs, g !! Z.to_nat r = Some zs ∧ zs !! Z.to_nat c = Some v.
Proof.
  unfold cell. destruct (Z.leb_spec 0 r), (Z.leb_spec 0 c); cbn [andb].
  - rewrite bind_Some. split.
    + intros (zs & Hzs & Hv). eauto.
    + intros (_ & _ & zs & Hzs & Hv). eauto.
  - split; [done|lia].
  - split; [done|lia].
  - split; [done|lia].
Qed.

Lemma is_grid_frame h h' x rows g :
  is_grid h x rows g → (∀ l, l ∈ x :: rows → h' !! l = h !! l) →
  is_grid h' x rows g.
Proof.
  intros [Hx Hg] Hsame. split.
  - rewrite Hsame; [done|by left].
  - eapply rows_frame; [done|]. intros r Hr. apply Hsame. by right.
Qed.

Lemma is_grid_allocated h x rows g l :
  is_grid h x rows g → l ∈ x :: rows → is_Some (h !! l).
Proof.
  intros [Hx Hg] [->|Hl]%elem_of_cons; [by rewrite Hx|].
  apply list_elem_of_lookup in Hl as [i Hi].
  destruct (Forall2_lookup_l _ _ _ _ _ Hg Hi) as (zs & _ & E). by rewrite E.
Qed.

Lemma is_grid_weaken h h' x rows g :
  is_grid h x rows g → h ⊆ h' → is_grid h' x rows g.
Proof.
  intros Hgrid Hsub. eapply is_grid_frame; [done|].
  intros l Hl. destruct (is_grid_allocated _ _ _ _ _ Hgrid Hl) as [xs E].
  rewrite E. by eapply lookup_weaken.
Qed.

Lemma is_grid_cell h x rows g r c v :
  is_grid h x rows g → cell g r c = Some v →
  ∃ y zs, rows !! Z.to_nat r = Some y ∧ g !! Z.to_nat r = Some zs
          ∧ h !! y = Some (VInt <$> zs) ∧ zs !! Z.to_nat c = Some v
          ∧ 0 ≤ r ∧ 0 ≤ c.
Proof.
  intros [Hx Hg] (Hr & Hc & zs & Hzs & Hv)%cell_Some.
  destruct (Forall2_lookup_r _ _ _ _ _ Hg Hzs) as (y & Hy & E).
  by exists y, zs.
Qed.

(** [estado[r][c]] *)
Lemma getitem_cell h x rows g r c v :
  is_grid h x rows g → cell g r c = Some v →
  (row ← getitem (VRef x) r; getitem row c) h = (h, Ret (VInt v)).
Proof.
  intros Hgrid Hcell. pose proof Hgrid as [Hx _].
  destruct (is_grid_cell _ _ _ _ _ _ _ Hgrid Hcell)
    as (y & zs & Hy & Hzs & Hhy & Hv & Hr & Hc).
  erewrite bind_ret; cycle 1.
  { eapply getitem_list; [done|done|]. by rewrite list_lookup_fmap, Hy. }
  eapply getitem_list; [done|done|]. by rewrite list_lookup_fmap, Hv.
Qed.

(** [estado[r][c] = v] *)
Lemma setitem_cell h x rows g r c old v :
  is_grid h x rows g → NoDup (x :: rows) → cell g r c = Some old →
  ∃ h',
    (row ← getitem (VRef x) r; setitem row c (VInt v)) h = (h', Ret tt)
    ∧ is_grid h' x rows (set_cell g r c v)
    ∧ (∀ l, l ∉ rows → h' !! l = h !! l).
Proof.
  intros Hgrid [Hx_rows Hnd]%NoDup_cons Hcell. pose proof Hgrid as [Hx Hg].
  destruct (is_grid_cell _ _ _ _ _ _ _ Hgrid Hcell)
    as (y & zs & Hy & Hzs & Hhy & Hv & Hr & Hc).
  assert (y ∈ rows) as Hy_in by (apply list_elem_of_lookup; eauto).
  exists (<[y := VInt <$> <[Z.to_nat c := v]> zs]> h). split_and!.
  - erewrite bind_ret; cycle 1.
    { eapply getitem_list; [done|done|]. by rewrite list_lookup_fmap, Hy. }
    rewrite (setitem_list _ _ _ _ _ Hhy).
    + by rewrite list_fmap_insert.
    + apply lookup_lt_Some in Hv. rewrite length_fmap. lia.
  - split.
    + rewrite lookup_insert_ne; [done|]. by intros ->.
    + apply Forall2_same_length_lookup in Hg as [Hlen Hg].
      apply Forall2_same_length_lookup. unfold set_cell.
      split; [by rewrite length_alter|].
      intros i r' zs' Hr' Hzs'.
      destruct (decide (i = Z.to_nat r)) as [->|Hne].
      * rewrite list_lookup_alter_eq, Hzs in Hzs'. cbn in Hzs'.
        injection Hzs' as <-. rewrite Hy in Hr'. injection Hr' as <-.
        apply lookup_insert_eq.
      * rewrite list_lookup_alter_ne in Hzs' by done.
        rewrite lookup_insert_ne; [eauto|].
        intros <-. by apply Hne, (NoDup_lookup rows i (Z.to_nat r) y).
  - intros l Hl. rewrite lookup_insert_ne; [done|]. by intros ->.
Qed.

Ltac elem_here :=
  solve [repeat first [apply list_elem_of_here | apply list_elem_of_further]].

Ltac elem_contra :=
  exfalso;
  match goal with
  | H : ?x ∉ ?l |- _ => apply H; elem_here
  end.

Ltac eval_cells :=
  repeat match goal with
  | |- context [cell ?g ?r ?c] =>
      let v := eval cbv in (cell g r c) in change (cell g r c) with v
  end.

Lemma cell_defined g r c :
  valid_grid g → 0 ≤ r < 3 → 0 ≤ c < 3 → is_Some (cell g r c).
Proof.
  intros (a & b & c' & d & e & f & g' & h & i & -> & _)%valid_grid_inv Hr Hc.
  assert (r = 0 ∨ r = 1 ∨ r = 2) as Hr' by lia.
  assert (c = 0 ∨ c = 1 ∨ c = 2) as Hc' by lia.
  destruct_or!; subst; by eexists.
Qed.

Lemma buscar_cero_run h x rows g :
  is_grid h x rows g → valid_grid g →
  _buscar_cero (VRef x) h =
  (h, match find_zero g with
      | Some rc => Ret rc
      | None => Raise (ValueError "Estado inválido: no contiene cero")
      end).
Proof.
  intros Hgrid Hvalid. unfold _buscar_cero.
  erewrite bind_ret; cycle 1.
  { apply (for_ret_pure _ (λ r,
      first_some (λ c,
        match cell g r c with
        | Some v => if v =? 0 then Some (r, c) else None
        | None => None
        end) (range 0 3))).
    intros r Hr%range_elem.
    apply (for_ret_pure _ (λ c,
        match cell g r c with
        | Some v => if v =? 0 then Some (r, c) else None
        | None => None
        end)).
    intros c Hc%range_elem.
    destruct (cell_defined g r c Hvalid) as [v Hv]; [lia..|].
    rewrite Hv.
    pose proof (getitem_cell _ _ _ _ _ _ _ Hgrid Hv) as Hget.
    apply bind_inv_ret in Hget as (h1 & row & E1 & E2).
    rewrite (bind_ret _ _ _ _ _ E1), (bind_ret _ _ _ _ _ E2).
    rewrite (bind_ret _ _ _ _ _ (py_eq_int _ _ _)).
    by destruct (v =? 0). }
  fold (find_zero g). by destruct (find_zero g).
Qed.

Lemma range_0_9_NoDup : NoDup (range 0 9).
Proof. apply NoDup_seqZ. Qed.

Lemma find_zero_valid g zr zc :
  valid_grid g → cell g zr zc = Some 0 →
  find_zero g = Some (zr, zc) ∧ 0 ≤ zr < 3 ∧ 0 ≤ zc < 3.
Proof.
  intros (a & b & c & d & e & f & g' & h & i & -> & Hperm)%valid_grid_inv Hcell.
  assert (NoDup [a; b; c; d; e; f; g'; h; i]) as Hnd.
  { rewrite Hperm. apply range_0_9_NoDup. }
  apply cell_Some in Hcell as (Hr & Hc & zs & Hzs & Hv).
  assert (Z.to_nat zr < 3)%nat by (apply lookup_lt_Some in Hzs; cbn in Hzs; lia).
  assert (zr = 0 ∨ zr = 1 ∨ zr = 2) as Hr' by lia.
  destruct_or!; subst zr; cbn in Hzs; injection Hzs as <-.
  all: assert (Z.to_nat zc < 3)%nat by (apply lookup_lt_Some in Hv; cbn in Hv; lia).
  all: assert (zc = 0 ∨ zc = 1 ∨ zc = 2) as Hc' by lia.
  all: destruct_or!; subst zc; cbn in Hv; injection Hv as ->.
  all: split; [|lia].
  all: repeat (apply NoDup_cons in Hnd as [? Hnd]).
  all: unfold find_zero; change (range 0 3) with [0; 1; 2]; cbn [first_some].
  all: eval_cells; cbv beta iota; change (0 =? 0) with true.
  all: repeat match goal with
       | |- context [?v =? 0] =>
           is_var v; destruct (Z.eqb_spec v 0); [subst; elem_contra|]
       end; done.
Qed.

Lemma buscar_cero_valid h x rows g zr zc :
  is_grid h x rows g → valid_grid g → cell g zr zc = Some 0 →
  _buscar_cero (VRef x) h = (h, Ret (zr, zc)).
Proof.
  intros Hgrid Hvalid Hcell.
  rewrite (buscar_cero_run _ _ _ _ Hgrid Hvalid).
  by destruct (find_zero_valid g zr zc Hvalid Hcell) as [-> _].
Qed.

Lemma cell_bounds g r c v :
  valid_grid g → cell g r c = Some v → 0 ≤ r < 3 ∧ 0 ≤ c < 3.
Proof.
  intros (a & b & c' & d & e & f & g' & h & i & -> & _)%valid_grid_inv.
  intros (Hr & Hc & zs & Hzs & Hv)%cell_Some.
  assert (Z.to_nat r < 3)%nat by (apply lookup_lt_Some in Hzs; cbn in Hzs; lia).
  assert (length zs = 3%nat).
  { apply list_elem_of_lookup_2 in Hzs.
    repeat (apply elem_of_cons in Hzs as [->|Hzs]; [done|]).
    by apply elem_of_nil in Hzs. }
  apply lookup_lt_Some in Hv. lia.
Qed.

Lemma cond_append (b : bool) (la : loc) (v : val) (acc : list val) (hb : heap) :
  (if b then append (VRef la) v else mret tt) (<[la := acc]> hb) =
  (<[la := acc ++ if b then [v] else []]> hb, Ret tt).
Proof.
  destruct b.
  - rewrite (append_list _ la acc) by apply lookup_insert_eq.
    by rewrite insert_insert_eq.
  - by rewrite mret_run, app_nil_r.
Qed.

Lemma acciones_run h x rows g zr zc :
  is_grid h x rows g → valid_grid g → cell g zr zc = Some 0 →
  acciones (VRef x) h =
  (<[fresh (dom h) := legal_moves zr zc]> h, Ret (VRef (fresh (dom h)))).
Proof.
  intros Hgrid Hvalid Hcell. unfold acciones.
  set (la := fresh (dom h)).
  rewrite (bind_ret _ _ _ _ _ (list_new_run h [])). fold la.
  assert (is_grid (<[la := []]> h) x rows g) as Hgrid1.
  { eapply is_grid_weaken; [done|]. apply alloc_subseteq. }
  rewrite (bind_ret _ _ _ _ _ (buscar_cero_valid _ _ _ _ _ _ Hgrid1 Hvalid Hcell)).
  cbv beta iota.
  do 4 rewrite (bind_ret _ _ _ _ _ (cond_append _ _ _ _ _)).
  rewrite mret_run. unfold legal_moves, directions. cbn.
  by destruct (zr >? 0), (zr <? 2), (zc >? 0), (zc <? 2).
Qed.

Lemma is_grid_NoDup h x rows g :
  is_grid h x rows g → valid_grid g → NoDup (x :: rows).
Proof.
  intros [Hx Hg] (a & b & c & d & e & f & g' & h' & i & -> & Hperm)%valid_grid_inv.
  assert (NoDup [a; b; c; d; e; f; g'; h'; i]) as Hnd.
  { rewrite Hperm. apply range_0_9_NoDup. }
  apply Forall2_cons_inv_r in Hg as (r0 & rows0 & H0 & Hg & ->).
  apply Forall2_cons_inv_r in Hg as (r1 & rows1 & H1 & Hg & ->).
  apply Forall2_cons_inv_r in Hg as (r2 & rows2 & H2 & Hg & ->).
  apply Forall2_nil_inv_r in Hg as ->.
  assert (a ≠ d ∧ d ≠ g' ∧ a ≠ g') as (? & ? & ?).
  { repeat (apply NoDup_cons in Hnd as [? Hnd]).
    split_and!; intros ->; elem_contra. }
  cbn in Hx, H0, H1, H2.
  rewrite !NoDup_cons, !not_elem_of_cons.
  split_and!; try apply not_elem_of_nil; try apply NoDup_nil_2;
    intros ->; congruence.
Qed.

Lemma action_run (a : string) (zr zc nr nc : Z) (h : heap) :
  target a zr zc = Some (nr, nc) →
  (if String.eqb a "UP" then mret (zr - 1, zc)
   else if String.eqb a "DOWN" then mret (zr + 1, zc)
   else if String.eqb a "LEFT" then mret (zr, zc - 1)
   else if String.eqb a "RIGHT" then mret (zr, zc + 1)
   else raise (ValueError ("Acción inválida: " +:+ a))) h
  = (h, Ret (nr, nc)).
Proof.
  unfold target.
  repeat (destruct (String.eqb a _); [by intros [= <- <-]|]). done.
Qed.

Lemma in_grid_test (r c : Z) :
  0 ≤ r < 3 → 0 ≤ c < 3 →
  negb ((0 <=? r) && (r <? 3) && (0 <=? c) && (c <? 3)) = false.
Proof.
  intros Hr Hc.
  destruct (Z.leb_spec 0 r), (Z.ltb_spec r 3), (Z.leb_spec 0 c), (Z.ltb_spec c 3);
    (done || lia).
Qed.

Lemma cell_set_cell_eq g r c old v :
  cell g r c = Some old → cell (set_cell g r c v) r c = Some v.
Proof.
  intros (Hr & Hc & zs & Hzs & Hv)%cell_Some. apply cell_Some.
  split_and!; [done..|]. exists (<[Z.to_nat c := v]> zs). unfold set_cell. split.
  - by rewrite list_lookup_alter_eq, Hzs.
  - apply list_lookup_insert_eq. by eapply lookup_lt_Some.
Qed.

Lemma cell_set_cell_ne g r c v r' c' :
  0 ≤ r → 0 ≤ c → (r, c) ≠ (r', c') →
  cell (set_cell g r c v) r' c' = cell g r' c'.
Proof.
  intros Hr Hc Hne. unfold cell, set_cell.
  destruct (Z.leb_spec 0 r'), (Z.leb_spec 0 c'); cbn [andb]; try done.
  destruct (decide (Z.to_nat r = Z.to_nat r')) as [E|E].
  - assert (r = r') as -> by lia.
    rewrite list_lookup_alter_eq. destruct (g !! Z.to_nat r'); [|done]. cbn.
    apply list_lookup_insert_ne. intros E'. apply Hne. f_equal. lia.
  - by rewrite list_lookup_alter_ne.
Qed.

Lemma getitem_heap (x : val) (i : Z) (h h' : heap) (o : outcome val) :
  getitem x i h = (h', o) → h' = h.
Proof.
  unfold getitem, items, mbind, M_bind, raise.
  destruct x as [z|s|p q|l]; cbn.
  - by intros [= <- _].
  - destruct (index _ i) as [k|]; [destruct (_ !! k)|]; by intros [= <- _].
  - destruct (index _ i) as [k|]; [destruct (_ !! k)|]; by intros [= <- _].
  - destruct (h !! l) as [xs|]; [|by intros [= <- _]].
    destruct (index _ i) as [k|]; [destruct (_ !! k)|]; by intros [= <- _].
Qed.

Lemma resultado_run h x rows g zr zc a nr nc v :
  is_grid h x rows g → valid_grid g → cell g zr zc = Some 0 →
  target a zr zc = Some (nr, nc) → cell g nr nc = Some v →
  ∃ h' y rows',
    resultado (VRef x) a h = (h', Ret (VRef y))
    ∧ is_grid h' y rows' (set_cell (set_cell g zr zc v) nr nc 0)
    ∧ h ⊆ h'
    ∧ (∀ l, l ∈ y :: rows' → h !! l = None).
Proof.
  intros Hgrid Hvalid Hz Ht Hn.
  pose proof (is_grid_NoDup _ _ _ _ Hgrid Hvalid) as Hnd.
  destruct (deepcopy_grid h x rows g Hgrid Hnd)
    as (h1 & y & rows' & Ecopy & Hgrid' & Hnd' & Hfresh & Hframe).
  assert (is_grid h1 x rows g) as Hgrid1.
  { eapply is_grid_frame; [done|]. intros l Hl. apply Hframe.
    intros Hl'. apply Hfresh in Hl'.
    destruct (is_grid_allocated _ _ _ _ _ Hgrid Hl) as [? E]. congruence. }
  destruct (cell_bounds _ _ _ _ Hvalid Hn) as [Hnr Hnc].
  destruct (cell_bounds _ _ _ _ Hvalid Hz) as [Hzr Hzc].
  destruct (setitem_cell h1 y rows' g zr zc 0 v Hgrid' Hnd' Hz)
    as (h2 & Eset1 & Hgrid2 & Hframe2).
  assert (∃ old, cell (set_cell g zr zc v) nr nc = Some old) as [old Hn2].
  { destruct (decide ((zr, zc) = (nr, nc))) as [[= <- <-]|Hne].
    - exists v. by eapply cell_set_cell_eq.
    - exists v. by rewrite cell_set_cell_ne by (done || lia). }
  destruct (setitem_cell h2 y rows' _ nr nc old 0 Hgrid2 Hnd' Hn2)
    as (h3 & Eset2 & Hgrid3 & Hframe3).
  pose proof (getitem_cell _ _ _ _ _ _ _ Hgrid' Hn) as Egn.
  pose proof (getitem_cell _ _ _ _ _ _ _ Hgrid' Hz) as Egz.
  apply bind_inv_ret in Egn as (k1 & row_n & Egn1 & Egn2).
  apply bind_inv_ret in Egz as (k2 & row_z & Egz1 & Egz2).
  apply bind_inv_ret in Eset1 as (k3 & row_z' & Es1 & Es2).
  apply bind_inv_ret in Eset2 as (k4 & row_n' & Es3 & Es4).
  pose proof (getitem_heap _ _ _ _ _ Egn1) as ->.
  pose proof (getitem_heap _ _ _ _ _ Egz1) as ->.
  exists h3, y, rows'. split_and!; [|done| |done].
  - unfold resultado.
    rewrite (bind_ret _ _ _ _ _ Ecopy).
    rewrite (bind_ret _ _ _ _ _ (buscar_cero_valid _ _ _ _ _ _ Hgrid1 Hvalid Hz)).
    cbv beta iota.
    rewrite (bind_ret _ _ _ _ _ (action_run _ _ _ _ _ _ Ht)).
    cbv beta iota. rewrite in_grid_test by done.
    rewrite (bind_ret _ _ _ _ _ Egn1). 
    rewrite (bind_ret _ _ _ _ _ Egn2).
    rewrite (bind_ret _ _ _ _ _ Egz1).
    rewrite (bind_ret _ _ _ _ _ Egz2).
    rewrite (bind_ret _ _ _ _ _ Es1).
    rewrite (bind_ret _ _ _ _ _ Es2).
    rewrite (bind_ret _ _ _ _ _ Es3).
    rewrite (bind_ret _ _ _ _ _ Es4).
    done.
  - apply map_subseteq_spec. intros l xs Hl.
    assert (l ∉ y :: rows') as Hl'.
    { intros Hin%Hfresh. congruence. }
    rewrite Hframe3, Hframe2, Hframe; [done|done|..];
      intros Hin; apply Hl'; by right.
Qed.

Ltac eval_set_cell :=
  repeat match goal with
  | |- context [set_cell ?g ?r ?c ?v] =>
      let t := eval cbv in (set_cell g r c v) in change (set_cell g r c v) with t
  end.

Lemma cell_cases g r c v :
  valid_grid g → cell g r c = Some v →
  (r = 0 ∨ r = 1 ∨ r = 2) ∧ (c = 0 ∨ c = 1 ∨ c = 2).
Proof. intros Hvalid Hcell. destruct (cell_bounds _ _ _ _ Hvalid Hcell). lia. Qed.

Lemma swap_valid g zr zc nr nc v :
  valid_grid g → cell g zr zc = Some 0 → cell g nr nc = Some v →
  valid_grid (set_cell (set_cell g zr zc v) nr nc 0).
Proof.
  intros Hvalid Hz Hn.
  destruct (cell_cases _ _ _ _ Hvalid Hz) as [Hzr Hzc].
  destruct (cell_cases _ _ _ _ Hvalid Hn) as [Hnr Hnc].
  apply valid_grid_inv in Hvalid as (a & b & c & d & e & f & g' & h & i & -> & Hperm).
  destruct_or!; subst zr zc nr nc; cbv in Hz, Hn;
    injection Hz as Hz; injection Hn as Hn; subst; eval_set_cell;
    unfold valid_grid.
  all: split_and!; [reflexivity|by repeat constructor|].
  all: cbn [concat app]; rewrite <- Hperm; solve_Permutation.
Qed.

Lemma legal_moves_elem zr zc a :
  VStr a ∈ legal_moves zr zc ↔
  (a = "UP" ∧ zr > 0) ∨ (a = "DOWN" ∧ zr < 2)
  ∨ (a = "LEFT" ∧ zc > 0) ∨ (a = "RIGHT" ∧ zc < 2).
Proof.
  unfold legal_moves. rewrite list_elem_of_fmap.
  split.
  - intros (y & [= <-] & Hin). apply list_elem_of_In, filter_In in Hin as [Hin Hl].
    apply list_elem_of_In in Hin. unfold directions in Hin.
    repeat (apply elem_of_cons in Hin as [->|Hin]);
      [cbn in Hl; rewrite ?Z.gtb_ltb in Hl; apply Z.ltb_lt in Hl; naive_solver lia..
      |by apply elem_of_nil in Hin].
  - intros H. exists a. split; [done|]. apply list_elem_of_In, filter_In.
    rewrite <- list_elem_of_In. unfold directions.
    destruct_or!; destruct H as [-> H]; 
      (split; [elem_here|cbn; rewrite ?Z.gtb_ltb; apply Z.ltb_lt; lia]).
Qed.

Lemma legal_moves_sublist zr zc :
  legal_moves zr zc `sublist_of` VStr <$> directions.
Proof.
  unfold legal_moves, directions. cbn.
  destruct (zr >? 0), (zr <? 2), (zc >? 0), (zc <? 2); cbn;
    repeat first [apply sublist_nil | apply sublist_skip | apply sublist_cons].
Qed.

Lemma target_legal zr zc a :
  0 ≤ zr < 3 → 0 ≤ zc < 3 → a ∈ directions → legal zr zc a = true →
  ∃ nr nc, target a zr zc = Some (nr, nc)
           ∧ 0 ≤ nr < 3 ∧ 0 ≤ nc < 3 ∧ (nr, nc) ≠ (zr, zc).
Proof.
  intros Hzr Hzc Hin Hl. unfold directions in Hin.
  repeat (apply elem_of_cons in Hin as [->|Hin]);
    [..|by apply elem_of_nil in Hin];
    cbn in Hl; rewrite ?Z.gtb_ltb in Hl; apply Z.ltb_lt in Hl;
    eexists _, _; (split; [reflexivity|]); split_and!; try lia;
    intros [=]; lia.
Qed.

Lemma legal_moves_inv zr zc a :
  VStr a ∈ legal_moves zr zc → a ∈ directions ∧ legal zr zc a = true.
Proof.
  unfold legal_moves. rewrite list_elem_of_fmap.
  intros (y & [= <-] & Hin). apply list_elem_of_In, filter_In in Hin as [Hin Hl].
  by apply list_elem_of_In in Hin.
Qed.

Lemma blank_unique g zr zc r c :
  valid_grid g → cell g zr zc = Some 0 → cell g r c = Some 0 →
  (r, c) = (zr, zc).
Proof.
  intros Hvalid Hz Hc.
  destruct (find_zero_valid _ _ _ Hvalid Hz) as [E1 _].
  destruct (find_zero_valid _ _ _ Hvalid Hc) as [E2 _]. congruence.
Qed.

(** C7. For a valid state with the blank in cell [(zr, zc)], [acciones]
    returns a new list that holds UP iff [zr > 0], DOWN iff [zr < 2], LEFT iff
    [zc > 0], RIGHT iff [zc < 2], and nothing else, in the order UP, DOWN,
    LEFT, RIGHT; the state is still in the store, unchanged. *)
Theorem puzzle_acciones_legal h x g zr zc :
  is_puzzle h x g → valid_grid g → cell g zr zc = Some 0 →
  let la := fresh (dom h) in
  let h' := <[la := legal_moves zr zc]> h in
  acciones (VRef x) h = (h', Ret (VRef la))
  ∧ legal_moves zr zc `sublist_of` VStr <$> ["UP"; "DOWN"; "LEFT"; "RIGHT"]
  ∧ (∀ a, VStr a ∈ legal_moves zr zc ↔
       (a = "UP" ∧ zr > 0) ∨ (a = "DOWN" ∧ zr < 2)
       ∨ (a = "LEFT" ∧ zc > 0) ∨ (a = "RIGHT" ∧ zc < 2))
  ∧ h ⊆ h' ∧ is_puzzle h' x g.
Proof.
  intros [rows Hgrid] Hvalid Hz la h'.
  assert (h ⊆ h') as Hsub by apply alloc_subseteq.
  split_and!.
  - by eapply acciones_run.
  - apply legal_moves_sublist.
  - apply legal_moves_elem.
  - done.
  - exists rows. by eapply is_grid_weaken.
Qed.

(** C2. For a valid state and an action of the list that [acciones] has
    returned for it, [resultado] raises nothing in any store [h] that holds
    the state, be it the store [acciones] left or the store after earlier
    calls of [resultado], and returns a new grid, at locations [h] did not
    use, that is again valid and differs from the state in exactly two
    cells: the blank's old cell now holds the tile [v] of the target cell
    (and [v] is not 0), the target cell holds 0, every other cell is as
    before.  The input state is still in the store, unchanged, so the next
    action of the list can be applied to it in turn. *)
Theorem puzzle_resultado_swaps h0 h x g zr zc h1 la acts a :
  is_puzzle h0 x g → valid_grid g → cell g zr zc = Some 0 →
  acciones (VRef x) h0 = (h1, Ret (VRef la)) →
  h1 !! la = Some acts → VStr a ∈ acts →
  is_puzzle h x g →
  ∃ h2 y rows' g' nr nc v,
    resultado (VRef x) a h = (h2, Ret (VRef y))
    ∧ is_grid h2 y rows' g' ∧ valid_grid g'
    ∧ target a zr zc = Some (nr, nc) ∧ (nr, nc) ≠ (zr, zc)
    ∧ cell g nr nc = Some v ∧ v ≠ 0
    ∧ cell g' zr zc = Some v ∧ cell g' nr nc = Some 0
    ∧ (∀ r c, (r, c) ≠ (zr, zc) → (r, c) ≠ (nr, nc) → cell g' r c = cell g r c)
    ∧ h ⊆ h2 ∧ is_puzzle h2 x g
    ∧ (∀ l, l ∈ y :: rows' → h !! l = None)
    ∧ is_puzzle h1 x g.
Proof.
  intros [rows0 Hgrid0] Hvalid Hz Hacc Hla Hin [rows Hgrid].
  rewrite (acciones_run _ _ _ _ _ _ Hgrid0 Hvalid Hz) in Hacc.
  injection Hacc as <- <-. rewrite lookup_insert_eq in Hla. injection Hla as <-.
  apply legal_moves_inv in Hin as [Hdir Hlegal].
  destruct (cell_bounds _ _ _ _ Hvalid Hz) as [Hzr Hzc].
  destruct (target_legal zr zc a Hzr Hzc Hdir Hlegal)
    as (nr & nc & Ht & Hnr & Hnc & Hne).
  destruct (cell_defined g nr nc Hvalid Hnr Hnc) as [v Hn].
  destruct (resultado_run h x rows g zr zc a nr nc v Hgrid Hvalid Hz Ht Hn)
    as (h2 & y & rows' & Erun & Hgrid2 & Hsub & Hfresh).
  exists h2, y, rows', (set_cell (set_cell g zr zc v) nr nc 0), nr, nc, v.
  split_and!; try done.
  - by eapply swap_valid.
  - intros ->. apply Hne. by eapply blank_unique.
  - rewrite cell_set_cell_ne by (lia || done). by eapply cell_set_cell_eq.
  - destruct (decide ((zr, zc) = (nr, nc))) as [E|E]; [by destruct Hne|].
    eapply cell_set_cell_eq. rewrite cell_set_cell_ne by (lia || done). done.
  - intros r c Hz' Hn'. rewrite !cell_set_cell_ne by (lia || done). done.
  - exists rows. by eapply is_grid_weaken.
  - exists rows0. eapply is_grid_weaken; [done|apply alloc_subseteq].
Qed.

Lemma action_invalid (a : string) (zr zc : Z) (h : heap) :
  a ∉ directions →
  (if String.eqb a "UP" then mret (zr - 1, zc)
   else if String.eqb a "DOWN" then mret (zr + 1, zc)
   else if String.eqb a "LEFT" then mret (zr, zc - 1)
   else if String.eqb a "RIGHT" then mret (zr, zc + 1)
   else raise (ValueError ("Acción inválida: " +:+ a)) : M (Z * Z)) h
  = (h, Raise (ValueError ("Acción inválida: " +:+ a))).
Proof.
  intros Hin. unfold directions in Hin.
  repeat match goal with
  | |- context [String.eqb a ?s] =>
      destruct (String.eqb_spec a s); [subst; exfalso; apply Hin; elem_here|]
  end.
  done.
Qed.

Lemma out_of_grid_test (r c : Z) :
  in_grid (r, c) = false →
  negb ((0 <=? r) && (r <? 3) && (0 <=? c) && (c <? 3)) = true.
Proof. unfold in_grid. cbn. by intros ->. Qed.

(** C8. For a valid state with the blank in [(zr, zc)]: an action that is
    none of UP, DOWN, LEFT, RIGHT makes [resultado] raise the ValueError of
    an invalid action; one of the four whose target cell is outside the grid
    makes it raise the IndexError of a move out of bounds, as UP does with
    the blank in (0,0).  Each time the state is still in the store,
    unchanged. *)
Theorem puzzle_resultado_errors h x g zr zc a :
  is_puzzle h x g → valid_grid g → cell g zr zc = Some 0 →
  (a ∉ ["UP"; "DOWN"; "LEFT"; "RIGHT"] →
     ∃ h', resultado (VRef x) a h =
             (h', Raise (ValueError ("Acción inválida: " +:+ a)))
           ∧ h ⊆ h' ∧ is_puzzle h' x g)
  ∧ (∀ nr nc, target a zr zc = Some (nr, nc) → in_grid (nr, nc) = false →
     ∃ h', resultado (VRef x) a h =
             (h', Raise (IndexError "Movimiento fuera de límites"))
           ∧ h ⊆ h' ∧ is_puzzle h' x g)
  ∧ (zr = 0 → zc = 0 →
     ∃ h', resultado (VRef x) "UP" h =
             (h', Raise (IndexError "Movimiento fuera de límites"))
           ∧ h ⊆ h' ∧ is_puzzle h' x g).
Proof.
  intros [rows Hgrid] Hvalid Hz.
  pose proof (is_grid_NoDup _ _ _ _ Hgrid Hvalid) as Hnd.
  destruct (deepcopy_grid h x rows g Hgrid Hnd)
    as (h1 & y & rows' & Ecopy & Hgrid' & Hnd' & Hfresh & Hframe).
  assert (h ⊆ h1) as Hsub.
  { apply map_subseteq_spec. intros l xs Hl. rewrite Hframe; [done|].
    intros Hin%Hfresh. congruence. }
  assert (is_grid h1 x rows g) as Hgrid1 by by eapply is_grid_weaken.
  assert (∀ b nr nc, target b zr zc = Some (nr, nc) → in_grid (nr, nc) = false →
     resultado (VRef x) b h =
       (h1, Raise (IndexError "Movimiento fuera de límites"))) as Hout.
  { intros b nr nc Ht Hg. unfold resultado.
    rewrite (bind_ret _ _ _ _ _ Ecopy).
    rewrite (bind_ret _ _ _ _ _ (buscar_cero_valid _ _ _ _ _ _ Hgrid1 Hvalid Hz)).
    cbv beta iota.
    rewrite (bind_ret _ _ _ _ _ (action_run _ _ _ _ _ _ Ht)).
    cbv beta iota. by rewrite out_of_grid_test. }
  split_and!.
  - intros Hin. exists h1. split_and!; [|done|by exists rows].
    unfold resultado.
    rewrite (bind_ret _ _ _ _ _ Ecopy).
    rewrite (bind_ret _ _ _ _ _ (buscar_cero_valid _ _ _ _ _ _ Hgrid1 Hvalid Hz)).
    cbv beta iota.
    by rewrite (bind_raise _ _ _ _ _ (action_invalid _ _ _ _ Hin)).
  - intros nr nc Ht Hg. exists h1. split_and!; [by eapply Hout|done|by exists rows].
  - intros -> ->. exists h1. split_and!; [|done|by exists rows].
    by apply (Hout "UP" (-1) 0).
Qed.

Lemma pos_objetivo_goal v :
  0 ≤ v ≤ 8 → pos_objetivo_init !! v = Some (goal_pos v).
Proof.
  intros Hv.
  assert (v = 0 ∨ v = 1 ∨ v = 2 ∨ v = 3 ∨ v = 4 ∨ v = 5 ∨ v = 6 ∨ v = 7 ∨ v = 8)
    as Hcases by lia.
  destruct_or!; subst v; by vm_compute.
Qed.

Lemma cell_range g r c v :
  valid_grid g → cell g r c = Some v → 0 ≤ v ≤ 8.
Proof.
  intros (_ & _ & Hperm) (_ & _ & zs & Hzs & Hv)%cell_Some.
  assert (v ∈ range 0 9) as Hin%range_elem; [|lia].
  rewrite <- Hperm. apply list_elem_of_In, in_concat. exists zs.
  rewrite <- !list_elem_of_In. split; by eapply list_elem_of_lookup_2.
Qed.

Lemma valor_objetivo_run s h x rows g :
  _pos_objetivo s = pos_objetivo_init → is_grid h x rows g → valid_grid g →
  valor_objetivo s (VRef x) h = (h, Ret (manhattan g)).
Proof.
  intros Hpos Hgrid Hvalid. unfold valor_objetivo.
  rewrite (for_acc_pure _ (λ r total,
             foldl (λ total c, total + tile_distance g r c) total (range 0 3))).
  - do 2 f_equal. unfold manhattan, positions.
    change (range 0 3) with [0; 1; 2]. cbn. lia.
  - intros r total Hr%range_elem.
    apply (for_acc_pure _ (λ c total, total + tile_distance g r c)).
    intros c total' Hc%range_elem.
    destruct (cell_defined g r c Hvalid) as [v Hv]; [lia..|].
    pose proof (cell_range _ _ _ _ Hvalid Hv) as Hrange.
    pose proof (getitem_cell _ _ _ _ _ _ _ Hgrid Hv) as Hget.
    apply bind_inv_ret in Hget as (h1 & row & E1 & E2).
    rewrite (bind_ret _ _ _ _ _ E1), (bind_ret _ _ _ _ _ E2).
    rewrite (bind_ret _ _ _ _ _ (py_eq_int _ _ _)).
    unfold tile_distance. rewrite Hv.
    destruct (v =? 0); [by rewrite mret_run, Z.add_0_r|].
    rewrite Hpos, (pos_objetivo_goal v Hrange).
    by destruct (goal_pos v).
Qed.

Lemma manhattan_nonneg g : 0 ≤ manhattan g.
Proof.
  unfold manhattan. induction positions as [|[r c] ps IH]; [done|].
  cbn [fmap list_fmap foldr].
  assert (0 ≤ tile_distance g r c); [|cbn; lia].
  unfold tile_distance. destruct (cell g r c) as [v|]; [|done].
  destruct (v =? 0); lia.
Qed.

(** C3. With the goal map that [__init__] builds, [valor_objetivo] of a
    valid state is the sum, over the cells that hold a tile, of the Manhattan
    distance between the cell and the cell of that tile in [GOAL]; the sum is
    never negative and it is 0 on [GOAL] itself.  The store is only read. *)
Theorem puzzle_valor_objetivo_manhattan s h x g :
  _pos_objetivo s = pos_objetivo_init → is_puzzle h x g → valid_grid g →
  valor_objetivo s (VRef x) h = (h, Ret (manhattan g))
  ∧ 0 ≤ manhattan g
  ∧ (g = GOAL → valor_objetivo s (VRef x) h = (h, Ret 0)).
Proof.
  intros Hpos [rows Hgrid] Hvalid.
  pose proof (valor_objetivo_run _ _ _ _ _ Hpos Hgrid Hvalid) as E.
  split_and!; [done|apply manhattan_nonneg|].
  intros ->. by rewrite E.
Qed.

Lemma insert_Permutation {A} (l : list A) (j : nat) (x y : A) :
  l !! j = Some y → y :: <[j := x]> l ≡ₚ x :: l.
Proof.
  revert j. induction l as [|a l IH]; intros [|j] Hj; simplify_eq/=.
  - apply perm_swap.
  - rewrite (perm_swap a y), (IH j Hj). apply perm_swap.
Qed.

(** Exchanging two items of a list permutes it. *)
Lemma swap_Permutation {A} (l : list A) (i j : nat) (x y : A) :
  l !! i = Some x → l !! j = Some y →
  <[j := x]> (<[i := y]> l) ≡ₚ l.
Proof.
  revert i j. induction l as [|a l IH]; intros [|i] [|j] Hi Hj; simplify_eq/=.
  - done.
  - by apply insert_Permutation.
  - by apply insert_Permutation.
  - constructor. by apply IH.
Qed.

Lemma shuffle_run (h : heap) (p : loc) (xs : list val) (g : rng) :
  h !! p = Some xs →
  ∃ xs' g', shuffle (VRef p) g h = (<[p := xs']> h, Ret g') ∧ xs' ≡ₚ xs.
Proof.
  intros Hp. unfold shuffle.
  rewrite (bind_ret _ _ _ _ _ (len_list _ _ _ Hp)).
  destruct (for_acc_inv
    (λ h' (_ : rng), ∃ xs', h' = <[p := xs']> h ∧ xs' ≡ₚ xs)
    (reverse (range 1 (Z.of_nat (length xs)))) 
    (λ i g, let '(j, g) := randbelow (i + 1) g in
      xj ← getitem (VRef p) j;
      xi ← getitem (VRef p) i;
      setitem (VRef p) i xj;;
      setitem (VRef p) j xi;;
      mret g) h g) as (h' & g' & Erun & xs' & -> & Hperm).
  - exists xs. split; [by rewrite insert_id|done].
  - intros i g0 h0 Hi%elem_of_reverse%range_elem (ys & -> & Hys).
    assert (length ys = length xs) as Hlen by by rewrite Hys.
    unfold randbelow. set (j := Z.of_nat (g0 0%nat) `mod` (i + 1)).
    assert (0 ≤ j < i + 1) as Hj by (apply Z.mod_pos_bound; lia).
    destruct (lookup_lt_is_Some_2 ys (Z.to_nat i)) as [yi Hyi]; [lia|].
    destruct (lookup_lt_is_Some_2 ys (Z.to_nat j)) as [yj Hyj]; [lia|].
    eexists _, _. split.
    + erewrite bind_ret; [|eapply getitem_list; [apply lookup_insert_eq|lia|done]].
      erewrite bind_ret; [|eapply getitem_list; [apply lookup_insert_eq|lia|done]].
      erewrite bind_ret;
        [|eapply setitem_list; [apply lookup_insert_eq|lia]].
      erewrite bind_ret;
        [|eapply setitem_list; [apply lookup_insert_eq|rewrite length_insert; lia]].
      rewrite mret_run, !insert_insert_eq. reflexivity.
    + eexists. split; [done|]. rewrite <- Hys.
      by apply swap_Permutation.
  - by exists xs', g'.
Qed.

Lemma keep_tiles (zs : list Z) (kept : list val) :
  foldl (λ kept x, if negb (bool_decide (x = VInt 0)) then kept ++ [x] else kept)
    kept (VInt <$> zs)
  = kept ++ (VInt <$> tiles zs).
Proof.
  revert kept. induction zs as [|z zs IH]; intros kept.
  - by rewrite app_nil_r.
  - cbn [fmap list_fmap foldl]. rewrite IH. unfold tiles.
    destruct (decide (z = 0)) as [->|Hz].
    + by rewrite filter_cons_False by (intros ?; done).
    + rewrite bool_decide_eq_false_2 by congruence. cbn [negb].
      rewrite filter_cons_True by done. by rewrite <- app_assoc.
Qed.

Lemma inversions_fold (l : list Z) :
  length l = 8%nat →
  foldl (λ inv i,
    foldl (λ inv j,
      inv + if l !!! Z.to_nat i >? l !!! Z.to_nat j then 1 else 0)
      inv (range (i + 1) 8)) 0 (range 0 8)
  = inversions l.
Proof.
  intros Hlen. unfold inversions. rewrite length_filter_sum, Hlen.
  unfold inverted.
  do 2 (repeat match goal with
        | |- context [range ?a ?b] =>
            let l := eval vm_compute in (range a b) in
            change (range a b) with l
        end;
        cbn [foldl foldr list_prod List.map app fst snd Z.ltb Z.compare
             Pos.compare Pos.compare_cont andb]).
  lia.
Qed.

Lemma contar_inversiones_run (h : heap) (p : loc) (zs : list Z) :
  h !! p = Some (VInt <$> zs) → length (tiles zs) = 8%nat →
  __contar_inversiones (VRef p) h =
  (<[fresh (dom h) := VInt <$> tiles zs]> h, Ret (inversions (tiles zs))).
Proof.
  intros Hp Hlen. unfold __contar_inversiones.
  rewrite (bind_ret _ _ _ _ _ (items_list _ _ _ Hp)).
  erewrite bind_ret; cycle 1.
  { apply (for_acc_pure _ (λ x kept,
      if negb (bool_decide (x = VInt 0)) then kept ++ [x] else kept)).
    intros x kept (z & -> & _)%list_elem_of_fmap. done. }
  rewrite (keep_tiles zs []), app_nil_l.
  rewrite (bind_ret _ _ _ _ _ (list_new_run _ _)).
  set (q := fresh (dom h)). set (h1 := <[q := VInt <$> tiles zs]> h).
  assert (h1 !! q = Some (VInt <$> tiles zs)) as Hq by apply lookup_insert_eq.
  rewrite (bind_ret _ _ _ _ _ (len_list _ _ _ Hq)).
  rewrite length_fmap, Hlen. change (Z.of_nat 8) with 8.
  rewrite <- (inversions_fold _ Hlen).
  apply (for_acc_pure _ (λ i inv,
    foldl (λ inv j,
      inv + if tiles zs !!! Z.to_nat i >? tiles zs !!! Z.to_nat j then 1 else 0)
      inv (range (i + 1) 8))).
  intros i inv Hi%range_elem.
  rewrite (bind_ret _ _ _ _ _ (len_list _ _ _ Hq)).
  rewrite length_fmap, Hlen. change (Z.of_nat 8) with 8.
  apply (for_acc_pure _ (λ j inv,
      inv + if tiles zs !!! Z.to_nat i >? tiles zs !!! Z.to_nat j then 1 else 0)).
  intros j inv' Hj%range_elem.
  erewrite bind_ret;
    [|eapply getitem_list; [done|lia|apply lookup_ints; lia]].
  erewrite bind_ret;
    [|eapply getitem_list; [done|lia|apply lookup_ints; lia]].
  cbn [py_gt]. rewrite (bind_ret _ _ _ _ _ (mret_run _ _)).
  rewrite mret_run. by destruct (_ >? _); rewrite ?Z.add_0_r.
Qed.

Lemma tiles_length (zs : list Z) :
  zs ≡ₚ range 0 9 → length (tiles zs) = 8%nat.
Proof. intros Hperm. unfold tiles. by rewrite Hperm. Qed.

Lemma es_resoluble_run (h : heap) (p : loc) (zs : list Z) :
  h !! p = Some (VInt <$> zs) → zs ≡ₚ range 0 9 →
  __es_resoluble (VRef p) h =
  (<[fresh (dom h) := VInt <$> tiles zs]> h,
   Ret (inversions (tiles zs) `mod` 2 =? 0)).
Proof.
  intros Hp Hperm. unfold __es_resoluble.
  rewrite (bind_ret _ _ _ _ _
    (contar_inversiones_run _ _ _ Hp (tiles_length _ Hperm))).
  done.
Qed.

Lemma kept_but_refl p h : kept_but p h h.
Proof. by intros l xs _ E. Qed.

Lemma kept_but_trans p h1 h2 h3 :
  kept_but p h1 h2 → kept_but p h2 h3 → kept_but p h1 h3.
Proof. intros H12 H23 l xs Hl E. by apply H23, H12. Qed.

Lemma kept_but_alloc p h xs : kept_but p h (<[fresh (dom h) := xs]> h).
Proof.
  intros l ys _ E. rewrite lookup_insert_ne; [done|].
  intros <-. by rewrite alloc_fresh in E.
Qed.

Lemma kept_but_insert p h xs : kept_but p h (<[p := xs]> h).
Proof. intros l ys Hl E. by rewrite lookup_insert_ne. Qed.

Lemma slice_run (h : heap) (p : loc) (xs : list val) (a b : Z) :
  h !! p = Some xs →
  slice (VRef p) a b h =
  (<[fresh (dom h) := take (Z.to_nat (b - a)) (drop (Z.to_nat a) xs)]> h,
   Ret (VRef (fresh (dom h)))).
Proof.
  intros Hp. unfold slice. by rewrite (bind_ret _ _ _ _ _ (items_list _ _ _ Hp)).
Qed.

Lemma shuffle_until_resoluble_run (fuel : nat) :
  ∀ (h : heap) (p : loc) (zs : list Z) (g : rng),
  h !! p = Some (VInt <$> zs) → zs ≡ₚ range 0 9 →
  ∃ h' left,
    shuffle_until_resoluble fuel (VRef p) g h = (h', Ret left)
    ∧ kept_but p h h'
    ∧ ∃ zs', h' !! p = Some (VInt <$> zs') ∧ zs' ≡ₚ range 0 9
             ∧ (is_Some left → inversions (tiles zs') `mod` 2 = 0).
Proof.
  induction fuel as [|fuel IH]; intros h p zs g Hp Hperm.
  { exists h, None. split_and!; [done|apply kept_but_refl|].
    exists zs. split_and!; [done..|]. by intros [? ?]. }
  cbn [shuffle_until_resoluble].
  rewrite (bind_ret _ _ _ _ _ (es_resoluble_run _ _ _ Hp Hperm)).
  set (h1 := <[fresh (dom h) := VInt <$> tiles zs]> h).
  assert (h1 !! p = Some (VInt <$> zs)) as Hp1.
  { unfold h1. rewrite lookup_insert_ne; [done|]. by eapply not_eq_sym, alloc_ne. }
  assert (kept_but p h h1) as Hk1 by apply kept_but_alloc.
  destruct (Z.eqb_spec (inversions (tiles zs) `mod` 2) 0) as [Heven|Hodd];
    cbn [negb].
  - exists h1, (Some g). split_and!; [done..|]. by exists zs.
  - destruct (shuffle_run h1 p _ g Hp1) as (xs' & g1 & Eshuf & Hxs').
    rewrite (bind_ret _ _ _ _ _ Eshuf).
    apply Permutation_map_inv in Hxs' as (zs1 & -> & Hzs1).
    destruct (IH (<[p := VInt <$> zs1]> h1) p zs1 g1 (lookup_insert_eq _ _ _)
                ltac:(by rewrite <- Hzs1))
      as (h' & left & Erun & Hk & Hzs').
    exists h', left. split_and!; [done| |done].
    eapply kept_but_trans; [exact Hk1|].
    eapply kept_but_trans; [apply kept_but_insert|exact Hk].
Qed.

Lemma shuffle_until_resoluble_inv (fuel : nat) (h h' : heap) (p : loc)
    (zs : list Z) (g g' : rng) :
  h !! p = Some (VInt <$> zs) → zs ≡ₚ range 0 9 →
  shuffle_until_resoluble fuel (VRef p) g h = (h', Ret (Some g')) →
  ∃ zs', h' !! p = Some (VInt <$> zs') ∧ zs' ≡ₚ range 0 9
         ∧ inversions (tiles zs') `mod` 2 = 0
         ∧ kept_but p h h'.
Proof.
  intros Hp Hperm Hrun.
  destruct (shuffle_until_resoluble_run fuel h p zs g Hp Hperm)
    as (h2 & left & Erun & Hk & zs' & Hp' & Hperm' & Heven).
  rewrite Hrun in Erun. injection Erun as <- <-.
  exists zs'. split_and!; [done..| |done]. by apply Heven.
Qed.

(** Once the permutation is solvable the loop is left at its next test. *)
Lemma shuffle_until_resoluble_exit (fuel : nat) (h : heap) (p : loc)
    (zs : list Z) (g : rng) :
  h !! p = Some (VInt <$> zs) → zs ≡ₚ range 0 9 →
  inversions (tiles zs) `mod` 2 = 0 →
  shuffle_until_resoluble (S fuel) (VRef p) g h =
  (<[fresh (dom h) := VInt <$> tiles zs]> h, Ret (Some g)).
Proof.
  intros Hp Hperm Heven. cbn [shuffle_until_resoluble].
  rewrite (bind_ret _ _ _ _ _ (es_resoluble_run _ _ _ Hp Hperm)).
  by rewrite Heven.
Qed.

(** A loop that was left within [fuel] tests is left in the same way when
    more tests are allowed. *)
Lemma shuffle_until_resoluble_more (fuel : nat) :
  ∀ (perm : val) (g g' : rng) (h h' : heap),
  shuffle_until_resoluble fuel perm g h = (h', Ret (Some g')) →
  shuffle_until_resoluble (S fuel) perm g h = (h', Ret (Some g')).
Proof.
  induction fuel as [|fuel IH]; intros perm g g' h h' Hrun; [done|].
  change (shuffle_until_resoluble (S (S fuel)) perm g) with
    (ok ← __es_resoluble perm;
     if negb ok then
       g ← shuffle perm g; shuffle_until_resoluble (S fuel) perm g
     else mret (Some g)).
  cbn [shuffle_until_resoluble] in Hrun.
  apply bind_inv_ret in Hrun as (h1 & ok & Eok & Hrun).
  rewrite (bind_ret _ _ _ _ _ Eok).
  destruct ok; cbn [negb] in *; [done|].
  apply bind_inv_ret in Hrun as (h2 & g1 & Eshuf & Hrun).
  rewrite (bind_ret _ _ _ _ _ Eshuf). by apply IH.
Qed.

(** The generator raises nothing: it gives a grid or is still redrawing
    when the fuel is spent. *)
Lemma estado_aleatorio_runs (fuel : nat) (g : rng) (h : heap) :
  ∃ h' r, estado_aleatorio fuel g h = (h', Ret r).
Proof.
  unfold estado_aleatorio.
  rewrite (bind_ret _ _ _ _ _ (list_new_run _ _)).
  set (p := fresh (dom h)). set (h0 := <[p := VInt <$> range 0 9]> h).
  destruct (shuffle_run h0 p _ g (lookup_insert_eq _ _ _))
    as (xs1 & g1 & Eshuf & Hxs1).
  rewrite (bind_ret _ _ _ _ _ Eshuf).
  apply Permutation_map_inv in Hxs1 as (zs1 & -> & Hzs1). symmetry in Hzs1.
  destruct (shuffle_until_resoluble_run fuel (<[p := VInt <$> zs1]> h0) p zs1 g1
              (lookup_insert_eq _ _ _) Hzs1)
    as (h2 & left & Erun & _ & zs & Hp2 & _).
  rewrite (bind_ret _ _ _ _ _ Erun).
  destruct left as [g2|]; [|by eexists _, _].
  rewrite (bind_ret _ _ _ _ _ (slice_run _ _ _ 0 3 Hp2)).
  erewrite bind_ret; cycle 1.
  { apply slice_run. rewrite lookup_insert_ne; [done|]. by eapply not_eq_sym, alloc_ne. }
  erewrite bind_ret; cycle 1.
  { apply slice_run. rewrite !lookup_insert_ne; [done|..];
      eapply not_eq_sym, alloc_ne; [done|].
    rewrite lookup_insert_ne; [done|]. by eapply not_eq_sym, alloc_ne. }
  rewrite (bind_ret _ _ _ _ _ (list_new_run _ _)).
  by eexists _, _.
Qed.

Lemma rows_of_valid (zs : list Z) :
  zs ≡ₚ range 0 9 → valid_grid (rows_of zs) ∧ concat (rows_of zs) = zs.
Proof.
  intros Hperm.
  assert (length zs = 9%nat) as Hlen by by rewrite Hperm.
  do 10 (destruct zs as [|? zs]; try done).
  by split; [split_and!; [done|repeat constructor|]|].
Qed.

Lemma one_blank (l : list Z) :
  l ≡ₚ range 0 9 → length (filter (λ z, z = 0) l) = 1%nat.
Proof. intros ->. done. Qed.

(** C1. Whatever the random stream and the number of redraws allowed, a grid
    that [estado_aleatorio] returns is a new list of three rows of three
    ints whose nine values are a permutation of 0..8, so exactly one cell is
    0, and whose row-major reading without the 0 has an even number of
    inversions; the objects of the store it started from are untouched. *)
Theorem puzzle_estado_aleatorio_resoluble fuel (g g' : rng) (h h' : heap) (x : val) :
  estado_aleatorio fuel g h = (h', Ret (Some (x, g'))) →
  ∃ y rows grid,
    x = VRef y ∧ is_grid h' y rows grid
    ∧ valid_grid grid
    ∧ length (filter (λ z, z = 0) (concat grid)) = 1%nat
    ∧ inversions (tiles (concat grid)) `mod` 2 = 0
    ∧ h ⊆ h' ∧ h !! y = None.
Proof.
  unfold estado_aleatorio. intros Hrun.
  rewrite (bind_ret _ _ _ _ _ (list_new_run _ _)) in Hrun.
  set (p := fresh (dom h)) in *.
  assert (h !! p = None) as Hp by apply alloc_fresh.
  set (h0 := <[p := VInt <$> range 0 9]> h) in *.
  destruct (shuffle_run h0 p _ g (lookup_insert_eq _ _ _))
    as (xs1 & g1 & Eshuf & Hxs1).
  rewrite (bind_ret _ _ _ _ _ Eshuf) in Hrun.
  apply Permutation_map_inv in Hxs1 as (zs1 & -> & Hzs1). symmetry in Hzs1.
  set (h1 := <[p := VInt <$> zs1]> h0) in *.
  destruct (shuffle_until_resoluble fuel (VRef p) g1 h1)
    as [h2 [[g2|]|e]] eqn:Eloop.
  2:{ by rewrite (bind_ret _ _ _ _ _ Eloop) in Hrun. }
  2:{ by rewrite (bind_raise _ _ _ _ _ Eloop) in Hrun. }
  rewrite (bind_ret _ _ _ _ _ Eloop) in Hrun.
  destruct (shuffle_until_resoluble_inv _ _ _ _ _ _ _
              (lookup_insert_eq _ _ _) Hzs1 Eloop)
    as (zs & Hp2 & Hperm & Heven & Hk).
  rewrite (bind_ret _ _ _ _ _ (slice_run _ _ _ 0 3 Hp2)) in Hrun.
  set (q0 := fresh (dom h2)) in *. set (h3 := <[q0 := _]> h2) in *.
  assert (h3 !! p = Some (VInt <$> zs)) as Hp3.
  { unfold h3. rewrite lookup_insert_ne; [done|]. by eapply not_eq_sym, alloc_ne. }
  rewrite (bind_ret _ _ _ _ _ (slice_run _ _ _ 3 6 Hp3)) in Hrun.
  set (q1 := fresh (dom h3)) in *. set (h4 := <[q1 := _]> h3) in *.
  assert (h4 !! p = Some (VInt <$> zs)) as Hp4.
  { unfold h4. rewrite lookup_insert_ne; [done|]. by eapply not_eq_sym, alloc_ne. }
  rewrite (bind_ret _ _ _ _ _ (slice_run _ _ _ 6 9 Hp4)) in Hrun.
  set (q2 := fresh (dom h4)) in *. set (h5 := <[q2 := _]> h4) in *.
  rewrite (bind_ret _ _ _ _ _ (list_new_run _ _)) in Hrun.
  set (y := fresh (dom h5)) in *.
  rewrite mret_run in Hrun. injection Hrun as <- <- <-.
  assert (h3 !! q0 = Some (VInt <$> take 3 zs)) as Hq0.
  { unfold h3. rewrite lookup_insert_eq. by rewrite fmap_take, drop_0. }
  assert (h4 !! q0 = Some (VInt <$> take 3 zs)) as Hq0'.
  { unfold h4. rewrite lookup_insert_ne; [done|]. by eapply not_eq_sym, alloc_ne. }
  assert (h4 !! q1 = Some (VInt <$> take 3 (drop 3 zs))) as Hq1.
  { unfold h4. rewrite lookup_insert_eq. by rewrite fmap_take, fmap_drop. }
  assert (h5 !! q0 = Some (VInt <$> take 3 zs)) as Hq0''.
  { unfold h5. rewrite lookup_insert_ne; [done|]. by eapply not_eq_sym, alloc_ne. }
  assert (h5 !! q1 = Some (VInt <$> take 3 (drop 3 zs))) as Hq1'.
  { unfold h5. rewrite lookup_insert_ne; [done|]. by eapply not_eq_sym, alloc_ne. }
  assert (h5 !! q2 = Some (VInt <$> take 3 (drop 6 zs))) as Hq2.
  { unfold h5. rewrite lookup_insert_eq. by rewrite fmap_take, fmap_drop. }
  destruct (rows_of_valid zs Hperm) as [Hvalid Hconcat].
  assert (kept_but p h (<[y := [VRef q0; VRef q1; VRef q2]]> h5)) as Hkept.
  { eapply kept_but_trans; [apply kept_but_alloc|]. fold p h0.
    eapply kept_but_trans; [apply kept_but_insert|]. fold h1.
    eapply kept_but_trans; [exact Hk|].
    do 4 (eapply kept_but_trans; [apply kept_but_alloc|]).
    apply kept_but_refl. }
  exists y, [q0; q1; q2], (rows_of zs). split_and!; [done| |done|..].
  - split; [apply lookup_insert_eq|].
    repeat constructor; (rewrite lookup_insert_ne; [done|]);
      by eapply not_eq_sym, alloc_ne.
  - rewrite Hconcat. by apply one_blank.
  - by rewrite Hconcat.
  - apply map_subseteq_spec. intros l xs Hl. apply Hkept; [|done]. congruence.
  - destruct (h !! y) as [xs|] eqn:Ey; [|done]. exfalso.
    assert (y ≠ p) as Hyp by congruence.
    assert (h5 !! y = Some xs) as Hy5.
    { unfold h5, h4, h3.
      do 3 (apply (kept_but_alloc p); [done|]).
      apply Hk; [done|]. unfold h1, h0. by rewrite !lookup_insert_ne. }
    exact (alloc_ne _ _ _ Hy5 eq_refl).
Qed.

Lemma store_of_grid a b c d e f g h i :
  is_grid (store_of [[a; b; c]; [d; e; f]; [g; h; i]]) 1 [2; 3; 4]%positive
    [[a; b; c]; [d; e; f]; [g; h; i]].
Proof. split; [reflexivity|]. repeat constructor. Qed.

Lemma grid_mid_valid : valid_grid grid_mid.
Proof. split_and!; [reflexivity|by repeat constructor|]. by apply (bool_decide_unpack _). Qed.

Lemma GOAL_valid : valid_grid GOAL.
Proof. split_and!; [reflexivity|by repeat constructor|]. reflexivity. Qed.

(** The blank in the middle cell: all four moves. *)
Lemma puzzle_acciones_legal_witness :
  let h := store_of grid_mid in
  acciones (VRef 1) h =
    (<[fresh (dom h) := legal_moves 1 1]> h, Ret (VRef (fresh (dom h)))).
Proof.
  intros h.
  apply (puzzle_acciones_legal h 1%positive grid_mid 1 1);
    [eexists; apply store_of_grid|apply grid_mid_valid|reflexivity].
Defined.

(** The first two rounds of [for a in acciones(s): resultado(s, a)] on the
    state with the blank in the middle: UP, and then DOWN in the store that
    UP left. *)
Lemma puzzle_resultado_swaps_witness :
  let h0 := store_of grid_mid in
  let h1 := <[fresh (dom h0) := legal_moves 1 1]> h0 in
  ∃ h2 y rows' g' h3 z rows'' g'',
    resultado (VRef 1) "UP" h1 = (h2, Ret (VRef y))
    ∧ is_grid h2 y rows' g' ∧ valid_grid g'
    ∧ cell g' 1 1 = Some 2 ∧ cell g' 0 1 = Some 0
    ∧ resultado (VRef 1) "DOWN" h2 = (h3, Ret (VRef z))
    ∧ is_grid h3 z rows'' g'' ∧ valid_grid g''
    ∧ cell g'' 1 1 = Some 7 ∧ cell g'' 2 1 = Some 0.
Proof.
  intros h0 h1.
  assert (is_puzzle h0 1%positive grid_mid) as Hp0
    by (eexists; apply store_of_grid).
  assert (acciones (VRef 1) h0 = (h1, Ret (VRef (fresh (dom h0))))) as Hacc
    by (vm_compute; reflexivity).
  assert (h1 !! fresh (dom h0) = Some (legal_moves 1 1)) as Hla
    by apply lookup_insert_eq.
  assert (is_puzzle h1 1%positive grid_mid) as Hp1.
  { destruct Hp0 as [rows Hgrid]. exists rows.
    eapply is_grid_weaken; [exact Hgrid|apply alloc_subseteq]. }
  destruct (puzzle_resultado_swaps h0 h1 1%positive grid_mid 1 1 h1
              (fresh (dom h0)) (legal_moves 1 1) "UP"
              Hp0 grid_mid_valid eq_refl Hacc Hla)
    as (h2 & y & rows' & g' & nr & nc & v & Erun & Hgrid & Hvalid & Ht & _
        & Hv & _ & Hz & Hn & _ & _ & Hp2 & _);
    [vm_compute; left|exact Hp1|].
  injection Ht as <- <-. injection Hv as <-.
  destruct (puzzle_resultado_swaps h0 h2 1%positive grid_mid 1 1 h1
              (fresh (dom h0)) (legal_moves 1 1) "DOWN"
              Hp0 grid_mid_valid eq_refl Hacc Hla)
    as (h3 & z & rows'' & g'' & nr & nc & v & Erun' & Hgrid' & Hvalid' & Ht'
        & _ & Hv' & _ & Hz' & Hn' & _);
    [vm_compute; right; left|exact Hp2|].
  injection Ht' as <- <-. injection Hv' as <-.
  exists h2, y, rows', g', h3, z, rows'', g''. split_and!; assumption.
Defined.

(** The goal grid has value 0. *)
Lemma puzzle_valor_objetivo_manhattan_witness :
  let s := {| _initial := VRef 1; _pos_objetivo := pos_objetivo_init |} in
  let h := store_of GOAL in
  valor_objetivo s (VRef 1) h = (h, Ret 0).
Proof.
  intros s h.
  apply (puzzle_valor_objetivo_manhattan s h 1%positive GOAL);
    [reflexivity|eexists; apply store_of_grid|apply GOAL_valid|reflexivity].
Defined.

(** On the goal grid, whose blank is in (0,0): UP is out of bounds and JUMP
    is no action. *)
Lemma puzzle_resultado_errors_witness :
  let h := store_of GOAL in
  (∃ h', resultado (VRef 1) "UP" h =
           (h', Raise (IndexError "Movimiento fuera de límites"))
         ∧ h ⊆ h' ∧ is_puzzle h' 1 GOAL)
  ∧ (∃ h', resultado (VRef 1) "JUMP" h =
           (h', Raise (ValueError "Acción inválida: JUMP"))
         ∧ h ⊆ h' ∧ is_puzzle h' 1 GOAL).
Proof.
  intros h. split.
  - apply (puzzle_resultado_errors h 1%positive GOAL 0 0 "UP");
      [eexists; apply store_of_grid|apply GOAL_valid|reflexivity..].
  - apply (puzzle_resultado_errors h 1%positive GOAL 0 0 "JUMP");
      [eexists; apply store_of_grid|apply GOAL_valid|reflexivity|].
    unfold directions. rewrite !not_elem_of_cons. 
    split_and!; [done..|apply not_elem_of_nil].
Defined.

(** The run of [estado_aleatorio] on the stream of zero draws from the empty
    store returns at the first test of the loop. *)
Lemma puzzle_estado_aleatorio_resoluble_witness :
  let run := estado_aleatorio 1 zeros ∅ in
  ∃ y rows grid,
    VRef 6 = VRef y ∧ is_grid run.1 y rows grid
    ∧ valid_grid grid
    ∧ length (filter (λ z, z = 0) (concat grid)) = 1%nat
    ∧ inversions (tiles (concat grid)) `mod` 2 = 0
    ∧ ∅ ⊆ run.1 ∧ (∅ : heap) !! y = None.
Proof.
  intros run.
  apply (puzzle_estado_aleatorio_resoluble 1 zeros zeros ∅ run.1 (VRef 6)).
  vm_compute. reflexivity.
Defined.

Lemma grid3_inv g :
  grid3 g →
  ∃ a b c d e f g' h i, g = [[a; b; c]; [d; e; f]; [g'; h; i]].
Proof.
  intros (Hlen & Hrows).
  destruct g as [|r0 [|r1 [|r2 [|? ?]]]]; [discriminate Hlen..| |discriminate Hlen].
  apply Forall_cons in Hrows as [Hl0 Hrows].
  apply Forall_cons in Hrows as [Hl1 Hrows].
  apply Forall_cons in Hrows as [Hl2 _].
  destruct r0 as [|a [|b [|c [|? ?]]]]; [discriminate Hl0..| |discriminate Hl0].
  destruct r1 as [|d [|e [|f [|? ?]]]]; [discriminate Hl1..| |discriminate Hl1].
  destruct r2 as [|g' [|h [|i [|? ?]]]]; [discriminate Hl2..| |discriminate Hl2].
  by exists a, b, c, d, e, f, g', h, i.
Qed.

Lemma valid_grid3 g : valid_grid g → grid3 g.
Proof. by intros (? & ? & _). Qed.

Lemma cell_defined3 g r c :
  grid3 g → 0 ≤ r < 3 → 0 ≤ c < 3 → is_Some (cell g r c).
Proof.
  intros (a & b & c' & d & e & f & g' & h & i & ->)%grid3_inv Hr Hc.
  assert (r = 0 ∨ r = 1 ∨ r = 2) as Hr' by lia.
  assert (c = 0 ∨ c = 1 ∨ c = 2) as Hc' by lia.
  destruct_or!; subst; by eexists.
Qed.

Lemma cell_bounds3 g r c v :
  grid3 g → cell g r c = Some v → 0 ≤ r < 3 ∧ 0 ≤ c < 3.
Proof.
  intros (a & b & c' & d & e & f & g' & h & i & ->)%grid3_inv.
  intros (Hr & Hc & zs & Hzs & Hv)%cell_Some.
  assert (Z.to_nat r < 3)%nat by (apply lookup_lt_Some in Hzs; cbn in Hzs; lia).
  assert (length zs = 3%nat).
  { apply list_elem_of_lookup_2 in Hzs.
    repeat (apply elem_of_cons in Hzs as [->|Hzs]; [done|]).
    by apply elem_of_nil in Hzs. }
  apply lookup_lt_Some in Hv. lia.
Qed.

Lemma cell_elem g r c v : cell g r c = Some v → v ∈ concat g.
Proof.
  intros (_ & _ & zs & Hzs & Hv)%cell_Some.
  apply list_elem_of_In, in_concat. exists zs.
  rewrite <- !list_elem_of_In. split; by eapply list_elem_of_lookup_2.
Qed.

Lemma buscar_cero_scan h x rows g :
  is_grid h x rows g → grid3 g →
  _buscar_cero (VRef x) h =
  (h, match find_zero g with
      | Some rc => Ret rc
      | None => Raise (ValueError "Estado inválido: no contiene cero")
      end).
Proof.
  intros Hgrid Hshape. unfold _buscar_cero.
  erewrite bind_ret; cycle 1.
  { apply (for_ret_pure _ (λ r,
      first_some (λ c,
        match cell g r c with
        | Some v => if v =? 0 then Some (r, c) else None
        | None => None
        end) (range 0 3))).
    intros r Hr%range_elem.
    apply (for_ret_pure _ (λ c,
        match cell g r c with
        | Some v => if v =? 0 then Some (r, c) else None
        | None => None
        end)).
    intros c Hc%range_elem.
    destruct (cell_defined3 g r c Hshape) as [v Hv]; [lia..|].
    rewrite Hv.
    pose proof (getitem_cell _ _ _ _ _ _ _ Hgrid Hv) as Hget.
    apply bind_inv_ret in Hget as (h1 & row & E1 & E2).
    rewrite (bind_ret _ _ _ _ _ E1), (bind_ret _ _ _ _ _ E2).
    rewrite (bind_ret _ _ _ _ _ (py_eq_int _ _ _)).
    by destruct (v =? 0). }
  fold (find_zero g). by destruct (find_zero g).
Qed.

Lemma find_zero_None g :
  grid3 g → 0 ∉ concat g → find_zero g = None.
Proof.
  intros (a & b & c & d & e & f & g' & h & i & ->)%grid3_inv Hnot.
  cbn [concat app] in Hnot.
  repeat (apply not_elem_of_cons in Hnot as [? Hnot]).
  unfold find_zero; change (range 0 3) with [0; 1; 2]; cbn [first_some].
  eval_cells; cbv beta iota.
  repeat match goal with
  | |- context [?v =? 0] =>
      is_var v; destruct (Z.eqb_spec v 0); [congruence|]
  end.
  done.
Qed.

Lemma find_zero_first g zr zc :
  grid3 g → find_zero g = Some (zr, zc) →
  cell g zr zc = Some 0
  ∧ ∀ r c v, cell g r c = Some v → scanned_before r c zr zc → v ≠ 0.
Proof.
  intros Hshape Hfind.
  assert (∀ r c v, cell g r c = Some v →
            (r = 0 ∨ r = 1 ∨ r = 2) ∧ (c = 0 ∨ c = 1 ∨ c = 2)) as Hcases.
  { intros r c v Hv. destruct (cell_bounds3 _ _ _ _ Hshape Hv). lia. }
  apply grid3_inv in Hshape as (a & b & c & d & e & f & g' & h & i & ->).
  revert Hfind.
  unfold find_zero; change (range 0 3) with [0; 1; 2]; cbn [first_some].
  eval_cells; cbv beta iota.
  repeat match goal with
  | |- context [?v =? 0] =>
      is_var v; destruct (Z.eqb_spec v 0)
  end; intros [= <- <-]; (split; [by subst|]);
  intros r c' v Hv Hbefore; unfold scanned_before in Hbefore;
  destruct (Hcases _ _ _ Hv) as [Hr Hc];
  destruct_or!; subst r c'; try lia;
  cbv in Hv; by injection Hv as <-.
Qed.

Lemma find_zero_Some g :
  grid3 g → 0 ∈ concat g → is_Some (find_zero g).
Proof.
  intros (a & b & c & d & e & f & g' & h & i & ->)%grid3_inv Hin.
  cbn [concat app] in Hin.
  unfold find_zero; change (range 0 3) with [0; 1; 2]; cbn [first_some].
  eval_cells; cbv beta iota.
  repeat match goal with
  | |- context [?v =? 0] =>
      is_var v; destruct (Z.eqb_spec v 0); [by eexists|]
  end.
  repeat (apply elem_of_cons in Hin as [Hin|Hin]; [congruence|]).
  by apply elem_of_nil in Hin.
Qed.

Lemma is_grid_self h x rows g :
  is_grid h x rows g → grid3 g → x ∉ rows.
Proof.
  intros [Hx Hg] [Hlen Hrows] Hin.
  apply list_elem_of_lookup in Hin as [k Hk].
  destruct (Forall2_lookup_l _ _ _ _ _ Hg Hk) as (zs & Hzs & E).
  rewrite Hx in E. injection E as E.
  apply Forall2_length in Hg. rewrite Hlen in Hg.
  destruct rows as [|r rows]; [done|].
  rewrite Forall_forall in Hrows.
  assert (length zs = 3%nat) as Hl.
  { apply Hrows. by eapply list_elem_of_lookup_2. }
  destruct zs as [|z zs]; [done|]. done.
Qed.

(** X9. On a grid of three rows of three ints, held in three distinct row
    lists, in which no cell is 0, [_buscar_cero] raises
    [ValueError "Estado inválido: no contiene cero"], and so do [acciones]
    (after it has made its empty list) and [resultado], for every action;
    the grid is left as it was. *)
Theorem puzzle_no_blank h x rows g a :
  is_grid h x rows g → grid3 g → NoDup rows → 0 ∉ concat g →
  let e := ValueError "Estado inválido: no contiene cero" in
  _buscar_cero (VRef x) h = (h, Raise e)
  ∧ acciones (VRef x) h = (<[fresh (dom h) := []]> h, Raise e)
  ∧ ∃ h', resultado (VRef x) a h = (h', Raise e) ∧ h ⊆ h'.
Proof.
  intros Hgrid Hshape Hnd Hnot e.
  assert (∀ h', is_grid h' x rows g → _buscar_cero (VRef x) h' = (h', Raise e))
    as Hscan.
  { intros h' Hgrid'. rewrite (buscar_cero_scan _ _ _ _ Hgrid' Hshape).
    by rewrite find_zero_None. }
  split_and!.
  - by apply Hscan.
  - unfold acciones.
    rewrite (bind_ret _ _ _ _ _ (list_new_run h [])).
    erewrite bind_raise; [done|]. apply Hscan.
    eapply is_grid_weaken; [done|apply alloc_subseteq].
  - assert (NoDup (x :: rows)) as Hnd'.
    { constructor; [by eapply is_grid_self|done]. }
    destruct (deepcopy_grid h x rows g Hgrid Hnd')
      as (h1 & y & rows' & Ecopy & Hgrid' & _ & Hfresh & Hframe).
    assert (h ⊆ h1) as Hsub.
    { apply map_subseteq_spec. intros l xs Hl. rewrite Hframe; [done|].
      intros Hin%Hfresh. congruence. }
    exists h1. split; [|done]. unfold resultado.
    rewrite (bind_ret _ _ _ _ _ Ecopy).
    erewrite bind_raise; [done|]. apply Hscan. by eapply is_grid_weaken.
Qed.

(** The grid of the tiles 1..9 has no blank. *)
Lemma puzzle_no_blank_witness :
  let h := store_of grid_no_blank in
  _buscar_cero (VRef 1) h =
    (h, Raise (ValueError "Estado inválido: no contiene cero")).
Proof.
  intros h.
  apply (puzzle_no_blank h 1%positive [2; 3; 4]%positive grid_no_blank "UP").
  - apply store_of_grid.
  - split; [reflexivity|by repeat constructor].
  - apply (bool_decide_unpack _). by vm_compute.
  - apply (bool_decide_unpack _). by vm_compute.
Defined.

(** X10. On any grid of three rows of three ints that holds a 0, valid state
    or not, [_buscar_cero] returns the position of the first 0 in row-major
    order: the cell it returns holds 0 and no cell read before it does. *)
Theorem puzzle_buscar_cero_first h x g :
  is_puzzle h x g → grid3 g → 0 ∈ concat g →
  ∃ zr zc,
    _buscar_cero (VRef x) h = (h, Ret (zr, zc))
    ∧ cell g zr zc = Some 0
    ∧ ∀ r c v, cell g r c = Some v → scanned_before r c zr zc → v ≠ 0.
Proof.
  intros [rows Hgrid] Hshape Hin.
  destruct (find_zero_Some g Hshape Hin) as [[zr zc] Hfind].
  destruct (find_zero_first g zr zc Hshape Hfind) as [Hz Hfirst].
  exists zr, zc. split_and!; [|done..].
  by rewrite (buscar_cero_scan _ _ _ _ Hgrid Hshape), Hfind.
Qed.

(** A grid with two blanks. *)
Lemma puzzle_buscar_cero_first_witness :
  let h := store_of grid_two_blanks in
  ∃ zr zc, _buscar_cero (VRef 1) h = (h, Ret (zr, zc))
           ∧ cell grid_two_blanks zr zc = Some 0.
Proof.
  intros h.
  destruct (puzzle_buscar_cero_first h 1%positive grid_two_blanks)
    as (zr & zc & E & Hz & _).
  - eexists. apply store_of_grid.
  - split; [reflexivity|by repeat constructor].
  - apply (bool_decide_unpack _). by vm_compute.
  - exists zr, zc. split; assumption.
Defined.

(** The map of goal positions that [__init__] builds, key by key. *)
Lemma pos_objetivo_lookup (v : Z) :
  pos_objetivo_init !! v =
  if bool_decide (0 ≤ v ≤ 8) then Some (v `div` 3, v `mod` 3) else None.
Proof.
  case_bool_decide as Hv.
  - assert (v = 0 ∨ v = 1 ∨ v = 2 ∨ v = 3 ∨ v = 4 ∨ v = 5 ∨ v = 6 ∨ v = 7
            ∨ v = 8) as Hcases by lia.
    destruct_or!; subst v; by vm_compute.
  - assert (pos_objetivo_init =
      <[8 := (2, 2)]> (<[7 := (2, 1)]> (<[6 := (2, 0)]> (<[5 := (1, 2)]>
      (<[4 := (1, 1)]> (<[3 := (1, 0)]> (<[2 := (0, 2)]> (<[1 := (0, 1)]>
      (<[0 := (0, 0)]> ∅))))))))) as -> by by vm_compute.
    rewrite !lookup_insert_ne by lia. apply lookup_empty.
Qed.

Lemma goal_pos_div (v : Z) :
  0 ≤ v ≤ 8 → goal_pos v = (v `div` 3, v `mod` 3).
Proof.
  intros Hv.
  assert (v = 0 ∨ v = 1 ∨ v = 2 ∨ v = 3 ∨ v = 4 ∨ v = 5 ∨ v = 6 ∨ v = 7
          ∨ v = 8) as Hcases by lia.
  destruct_or!; subst v; by vm_compute.
Qed.

(** The body of the loops of [valor_objetivo] on a cell that holds a tile
    of the puzzle, and on one that holds something else. *)
Lemma valor_objetivo_cell s h x rows g r c v total :
  _pos_objetivo s = pos_objetivo_init → is_grid h x rows g →
  cell g r c = Some v → 0 ≤ v ≤ 8 →
  (row ← getitem (VRef x) r;
   v ← getitem row c;
   z ← py_eq v (VInt 0);
   if z : bool then mret total
   else
     match v with
     | VInt k =>
         match _pos_objetivo s !! k with
         | Some (gr, gc) => mret (total + (Z.abs (r - gr) + Z.abs (c - gc)))
         | None => raise (KeyError v)
         end
     | _ => raise (KeyError v)
     end) h
  = (h, Ret (total + tile_distance g r c)).
Proof.
  intros Hpos Hgrid Hv Hrange.
  pose proof (getitem_cell _ _ _ _ _ _ _ Hgrid Hv) as Hget.
  apply bind_inv_ret in Hget as (h1 & row & E1 & E2).
  rewrite (bind_ret _ _ _ _ _ E1), (bind_ret _ _ _ _ _ E2).
  rewrite (bind_ret _ _ _ _ _ (py_eq_int _ _ _)).
  unfold tile_distance. rewrite Hv.
  destruct (v =? 0); [by rewrite mret_run, Z.add_0_r|].
  rewrite Hpos, (pos_objetivo_goal v Hrange).
  by destruct (goal_pos v).
Qed.

Lemma valor_objetivo_cell_missing s h x rows g r c v total :
  _pos_objetivo s = pos_objetivo_init → is_grid h x rows g →
  cell g r c = Some v → ¬ (0 ≤ v ≤ 8) →
  (row ← getitem (VRef x) r;
   v ← getitem row c;
   z ← py_eq v (VInt 0);
   if z : bool then mret total
   else
     match v with
     | VInt k =>
         match _pos_objetivo s !! k with
         | Some (gr, gc) => mret (total + (Z.abs (r - gr) + Z.abs (c - gc)))
         | None => raise (KeyError v)
         end
     | _ => raise (KeyError v)
     end) h
  = (h, Raise (KeyError (VInt v))).
Proof.
  intros Hpos Hgrid Hv Hrange.
  pose proof (getitem_cell _ _ _ _ _ _ _ Hgrid Hv) as Hget.
  apply bind_inv_ret in Hget as (h1 & row & E1 & E2).
  rewrite (bind_ret _ _ _ _ _ E1), (bind_ret _ _ _ _ _ E2).
  rewrite (bind_ret _ _ _ _ _ (py_eq_int _ _ _)).
  destruct (Z.eqb_spec v 0) as [->|Hnz]; [lia|].
  rewrite Hpos, pos_objetivo_lookup.
  by rewrite bool_decide_eq_false_2.
Qed.

(** X11. [valor_objetivo] needs no valid state: on every grid of three rows of
    three ints whose cells are all in 0..8, repeated values included, it
    raises nothing, changes nothing and returns the sum of the Manhattan
    distances of the non-zero cells to their goal cells. *)
Theorem puzzle_valor_objetivo_tiles s h x g :
  _pos_objetivo s = pos_objetivo_init → is_puzzle h x g → grid3 g →
  (∀ v, v ∈ concat g → 0 ≤ v ≤ 8) →
  valor_objetivo s (VRef x) h = (h, Ret (manhattan g)).
Proof.
  intros Hpos [rows Hgrid] Hshape Hrange. unfold valor_objetivo.
  rewrite (for_acc_pure _ (λ r total,
             foldl (λ total c, total + tile_distance g r c) total (range 0 3))).
  - do 2 f_equal. unfold manhattan, positions.
    change (range 0 3) with [0; 1; 2]. cbn. lia.
  - intros r total Hr%range_elem.
    apply (for_acc_pure _ (λ c total, total + tile_distance g r c)).
    intros c total' Hc%range_elem.
    destruct (cell_defined3 g r c Hshape) as [v Hv]; [lia..|].
    eapply valor_objetivo_cell; [done..|]. apply Hrange. by eapply cell_elem.
Qed.

(** A grid in which the tile 1 comes twice. *)
Lemma puzzle_valor_objetivo_tiles_witness :
  let s := {| _initial := VRef 1; _pos_objetivo := pos_objetivo_init |} in
  let h := store_of grid_twice in
  valor_objetivo s (VRef 1) h = (h, Ret (manhattan grid_twice)).
Proof.
  intros s h.
  apply (puzzle_valor_objetivo_tiles s h 1%positive grid_twice).
  - reflexivity.
  - eexists. apply store_of_grid.
  - split; [reflexivity|by repeat constructor].
  - intros v Hv. cbn in Hv.
    repeat (apply elem_of_cons in Hv as [->|Hv]; [lia|]).
    by apply elem_of_nil in Hv.
Defined.

(** X12. A cell whose value is no tile of the puzzle makes [valor_objetivo]
    fail: when the first cell in row-major order with a value outside 0..8
    holds [v], the lookup in the map of goal positions raises [KeyError v];
    the store is unchanged. *)
Theorem puzzle_valor_objetivo_key_error s h x g r0 c0 v :
  _pos_objetivo s = pos_objetivo_init → is_puzzle h x g → grid3 g →
  cell g r0 c0 = Some v → ¬ (0 ≤ v ≤ 8) →
  (∀ r c w, cell g r c = Some w → scanned_before r c r0 c0 → 0 ≤ w ≤ 8) →
  valor_objetivo s (VRef x) h = (h, Raise (KeyError (VInt v))).
Proof.
  intros Hpos [rows Hgrid] Hshape Hv Hbad Hgood.
  destruct (cell_bounds3 _ _ _ _ Hshape Hv) as [Hr0 Hc0].
  unfold valor_objetivo.
  rewrite (range_split 0 r0 3) at 1 by lia.
  apply (for_acc_raise _ _ _ (λ r total,
           foldl (λ total c, total + tile_distance g r c) total (range 0 3))).
  - intros r total Hr%range_elem.
    apply (for_acc_pure _ (λ c total, total + tile_distance g r c)).
    intros c total' Hc%range_elem.
    destruct (cell_defined3 g r c Hshape) as [w Hw]; [lia..|].
    eapply valor_objetivo_cell; [done..|].
    eapply Hgood; [done|]. unfold scanned_before. lia.
  - intros total. rewrite (range_split 0 c0 3) at 1 by lia.
    apply (for_acc_raise _ _ _ (λ c total, total + tile_distance g r0 c)).
    + intros c total' Hc%range_elem.
      destruct (cell_defined3 g r0 c Hshape) as [w Hw]; [lia..|].
      eapply valor_objetivo_cell; [done..|].
      eapply Hgood; [done|]. unfold scanned_before. lia.
    + intros total'. by eapply valor_objetivo_cell_missing.
Qed.

(** The grid of the tiles 1..9: the tile 9 has no goal cell. *)
Lemma puzzle_valor_objetivo_key_error_witness :
  let s := {| _initial := VRef 1; _pos_objetivo := pos_objetivo_init |} in
  let h := store_of grid_no_blank in
  valor_objetivo s (VRef 1) h = (h, Raise (KeyError (VInt 9))).
Proof.
  intros s h.
  apply (puzzle_valor_objetivo_key_error s h 1%positive grid_no_blank 2 2 9).
  - reflexivity.
  - eexists. apply store_of_grid.
  - split; [reflexivity|by repeat constructor].
  - reflexivity.
  - lia.
  - intros r c w Hw Hbefore. unfold scanned_before in Hbefore.
    assert (grid3 grid_no_blank) as Hshape
      by (split; [reflexivity|by repeat constructor]).
    destruct (cell_bounds3 _ _ _ _ Hshape Hw) as [Hr Hc].
    assert (r = 0 ∨ r = 1 ∨ r = 2) as Hr' by lia.
    assert (c = 0 ∨ c = 1 ∨ c = 2) as Hc' by lia.
    destruct_or!; subst r c; cbv in Hw; injection Hw as <-; lia.
Defined.

Lemma tile_distance_nonneg g r c : 0 ≤ tile_distance g r c.
Proof.
  unfold tile_distance. destruct (cell g r c) as [v|]; [|done].
  destruct (v =? 0); lia.
Qed.

Lemma tile_distance_0 g r c v :
  cell g r c = Some v → 0 ≤ v ≤ 8 → tile_distance g r c = 0 →
  v = 0 ∨ v = 3 * r + c.
Proof.
  intros Hv Hrange. unfold tile_distance. rewrite Hv.
  destruct (Z.eqb_spec v 0) as [->|Hnz]; [by left|].
  rewrite (goal_pos_div v Hrange). cbn [fst snd]. intros Hd. right.
  assert (r = v `div` 3 ∧ c = v `mod` 3) as [-> ->] by lia.
  pose proof (Z.div_mod v 3 ltac:(lia)). lia.
Qed.

Lemma manhattan_0_goal g : valid_grid g → manhattan g = 0 → g = GOAL.
Proof.
  intros Hvalid Hm.
  assert (∀ r c v, cell g r c = Some v → 0 ≤ r < 3 → 0 ≤ c < 3 →
            v = 0 ∨ v = 3 * r + c) as Hcell.
  { intros r c v Hv Hr Hc.
    eapply tile_distance_0; [done|by eapply cell_range|].
    revert Hm. unfold manhattan, positions.
    change (range 0 3) with [0; 1; 2]. cbn [mbind list_bind fmap list_fmap app
      foldr fst snd].
    pose proof (tile_distance_nonneg g 0 0). pose proof (tile_distance_nonneg g 0 1).
    pose proof (tile_distance_nonneg g 0 2). pose proof (tile_distance_nonneg g 1 0).
    pose proof (tile_distance_nonneg g 1 1). pose proof (tile_distance_nonneg g 1 2).
    pose proof (tile_distance_nonneg g 2 0). pose proof (tile_distance_nonneg g 2 1).
    pose proof (tile_distance_nonneg g 2 2).
    assert (r = 0 ∨ r = 1 ∨ r = 2) as Hr' by lia.
    assert (c = 0 ∨ c = 1 ∨ c = 2) as Hc' by lia.
    destruct_or!; subst r c; lia. }
  apply valid_grid_inv in Hvalid
    as (a & b & c & d & e & f & g' & h & i & -> & Hperm).
  assert (NoDup [a; b; c; d; e; f; g'; h; i]) as Hnd.
  { rewrite Hperm. apply range_0_9_NoDup. }
  repeat (apply NoDup_cons in Hnd as [? Hnd]).
  destruct (Hcell 0 0 a eq_refl ltac:(lia) ltac:(lia)) as [->| ->].
  all: destruct (Hcell 0 1 b eq_refl ltac:(lia) ltac:(lia)) as [->| ->];
    [elem_contra|].
  all: destruct (Hcell 0 2 c eq_refl ltac:(lia) ltac:(lia)) as [->| ->];
    [elem_contra|].
  all: destruct (Hcell 1 0 d eq_refl ltac:(lia) ltac:(lia)) as [->| ->];
    [elem_contra|].
  all: destruct (Hcell 1 1 e eq_refl ltac:(lia) ltac:(lia)) as [->| ->];
    [elem_contra|].
  all: destruct (Hcell 1 2 f eq_refl ltac:(lia) ltac:(lia)) as [->| ->];
    [elem_contra|].
  all: destruct (Hcell 2 0 g' eq_refl ltac:(lia) ltac:(lia)) as [->| ->];
    [elem_contra|].
  all: destruct (Hcell 2 1 h eq_refl ltac:(lia) ltac:(lia)) as [->| ->];
    [elem_contra|].
  all: destruct (Hcell 2 2 i eq_refl ltac:(lia) ltac:(lia)) as [->| ->];
    [elem_contra|].
  all: reflexivity.
Qed.

(** X13. For a valid state, [valor_objetivo] returns 0 exactly when the state
    is the goal grid [GOAL]. *)
Theorem puzzle_valor_objetivo_zero_iff_goal s h x g :
  _pos_objetivo s = pos_objetivo_init → is_puzzle h x g → valid_grid g →
  valor_objetivo s (VRef x) h = (h, Ret 0) ↔ g = GOAL.
Proof.
  intros Hpos [rows Hgrid] Hvalid.
  rewrite (valor_objetivo_run _ _ _ _ _ Hpos Hgrid Hvalid). split.
  - intros [= Hm]. by apply manhattan_0_goal.
  - by intros ->.
Qed.

(** The state with the blank in the middle. *)
Lemma puzzle_valor_objetivo_zero_iff_goal_witness :
  let s := {| _initial := VRef 1; _pos_objetivo := pos_objetivo_init |} in
  let h := store_of grid_mid in
  valor_objetivo s (VRef 1) h = (h, Ret 0) ↔ grid_mid = GOAL.
Proof.
  intros s h.
  apply (puzzle_valor_objetivo_zero_iff_goal s h 1%positive grid_mid);
    [reflexivity|eexists; apply store_of_grid|apply grid_mid_valid].
Defined.

(** X14. For a valid state with the blank in cell [(zr, zc)], the list that
    [acciones] returns has two entries for a blank in a corner, three for a
    blank on the middle of an edge and four for a blank in the centre: one or
    two vertical moves (two when [zr = 1]) and one or two horizontal moves
    (two when [zc = 1]). *)
Theorem puzzle_acciones_count h x g zr zc :
  is_puzzle h x g → valid_grid g → cell g zr zc = Some 0 →
  ∃ h' la acts,
    acciones (VRef x) h = (h', Ret (VRef la)) ∧ h' !! la = Some acts
    ∧ Z.of_nat (length acts) =
        (if bool_decide (zr = 1) then 2 else 1)
        + (if bool_decide (zc = 1) then 2 else 1)
    ∧ (2 ≤ length acts ≤ 4)%nat.
Proof.
  intros [rows Hgrid] Hvalid Hz.
  destruct (cell_cases _ _ _ _ Hvalid Hz) as [Hzr Hzc].
  eexists _, _, _. split; [by eapply acciones_run|].
  split; [apply lookup_insert_eq|].
  destruct_or!; subst zr zc; (split; [reflexivity|cbv; lia]).
Qed.

(** With the blank in the centre all four moves are listed. *)
Lemma puzzle_acciones_count_witness :
  let h := store_of grid_mid in
  ∃ h' la acts,
    acciones (VRef 1) h = (h', Ret (VRef la)) ∧ h' !! la = Some acts
    ∧ length acts = 4%nat.
Proof.
  intros h.
  destruct (puzzle_acciones_count h 1%positive grid_mid 1 1)
    as (h' & la & acts & E & Hla & Hlen & _);
    [eexists; apply store_of_grid|apply grid_mid_valid|reflexivity|].
  exists h', la, acts. split_and!; [assumption..|].
  rewrite !bool_decide_eq_true_2 in Hlen by reflexivity. lia.
Defined.

Lemma legal_move h x rows g zr zc a :
  is_grid h x rows g → valid_grid g → cell g zr zc = Some 0 →
  VStr a ∈ legal_moves zr zc →
  ∃ nr nc v h1 y rows1,
    target a zr zc = Some (nr, nc)
    ∧ target (opposite a) nr nc = Some (zr, zc)
    ∧ Z.abs (zr - nr) + Z.abs (zc - nc) = 1
    ∧ cell g nr nc = Some v
    ∧ resultado (VRef x) a h = (h1, Ret (VRef y))
    ∧ is_grid h1 y rows1 (moved g zr zc nr nc v)
    ∧ valid_grid (moved g zr zc nr nc v)
    ∧ cell (moved g zr zc nr nc v) nr nc = Some 0
    ∧ cell (moved g zr zc nr nc v) zr zc = Some v
    ∧ h ⊆ h1
    ∧ (∀ l, l ∈ y :: rows1 → h !! l = None).
Proof.
  intros Hgrid Hvalid Hz [Hdir Hlegal]%legal_moves_inv.
  destruct (cell_bounds _ _ _ _ Hvalid Hz) as [Hzr Hzc].
  destruct (target_legal zr zc a Hzr Hzc Hdir Hlegal)
    as (nr & nc & Ht & Hnr & Hnc & Hne).
  destruct (cell_defined g nr nc Hvalid Hnr Hnc) as [v Hn].
  destruct (resultado_run h x rows g zr zc a nr nc v Hgrid Hvalid Hz Ht Hn)
    as (h1 & y & rows1 & Erun & Hgrid1 & Hsub & Hfresh).
  exists nr, nc, v, h1, y, rows1.
  assert (target (opposite a) nr nc = Some (zr, zc)
          ∧ Z.abs (zr - nr) + Z.abs (zc - nc) = 1) as [Hback Hadj].
  { unfold directions in Hdir.
    repeat (apply elem_of_cons in Hdir as [->|Hdir]);
      [..|by apply elem_of_nil in Hdir];
      cbv [target opposite String.eqb Ascii.eqb Bool.eqb] in Ht |- *;
      injection Ht as <- <-; (split; [f_equal; f_equal|]); lia. }
  split_and!; try done.
  - by eapply swap_valid.
  - unfold moved. eapply cell_set_cell_eq.
    rewrite cell_set_cell_ne by (lia || done). done.
  - unfold moved. rewrite cell_set_cell_ne by (lia || done).
    by eapply cell_set_cell_eq.
Qed.




Lemma manhattan_9 a b c d e f g h i :
  manhattan [[a; b; c]; [d; e; f]; [g; h; i]] =
  tile_dist a 0 0 + tile_dist b 0 1 + tile_dist c 0 2
  + tile_dist d 1 0 + tile_dist e 1 1 + tile_dist f 1 2
  + tile_dist g 2 0 + tile_dist h 2 1 + tile_dist i 2 2.
Proof.
  unfold manhattan, positions. change (range 0 3) with [0; 1; 2].
  cbn [mbind list_bind fmap list_fmap app foldr fst snd].
  unfold tile_distance. eval_cells. cbv beta iota.
  unfold tile_dist. lia.
Qed.

Lemma tile_dist_step v r c r' c' :
  1 ≤ v ≤ 8 → Z.abs (r - r') + Z.abs (c - c') = 1 →
  tile_dist v r' c' = tile_dist v r c + 1
  ∨ tile_dist v r' c' = tile_dist v r c - 1.
Proof.
  intros Hv Hadj. unfold tile_dist.
  destruct (Z.eqb_spec v 0); [lia|].
  rewrite goal_pos_div by lia. cbn [fst snd]. lia.
Qed.

Lemma tile_dist_blank r c : tile_dist 0 r c = 0.
Proof. done. Qed.

Lemma swap_manhattan g zr zc nr nc v :
  valid_grid g → cell g zr zc = Some 0 → cell g nr nc = Some v →
  Z.abs (zr - nr) + Z.abs (zc - nc) = 1 →
  manhattan (moved g zr zc nr nc v) = manhattan g + 1
  ∨ manhattan (moved g zr zc nr nc v) = manhattan g - 1.
Proof.
  intros Hvalid Hz Hn Hadj.
  assert (1 ≤ v ≤ 8) as Hv.
  { pose proof (cell_range _ _ _ _ Hvalid Hn).
    assert (v ≠ 0); [|lia]. intros ->.
    pose proof (blank_unique _ _ _ _ _ Hvalid Hz Hn) as [= -> ->]. lia. }
  pose proof (tile_dist_step v nr nc zr zc Hv ltac:(lia)) as Hstep.
  destruct (cell_cases _ _ _ _ Hvalid Hz) as [Hzr Hzc].
  destruct (cell_cases _ _ _ _ Hvalid Hn) as [Hnr Hnc].
  apply valid_grid_inv in Hvalid
    as (a & b & c & d & e & f & g' & h & i & -> & Hperm).
  destruct_or!; subst zr zc nr nc; try lia; cbv in Hz, Hn;
    injection Hz as Hz; injection Hn as Hn; subst;
    unfold moved; eval_set_cell; rewrite !manhattan_9, !tile_dist_blank; lia.
Qed.

(** X16. A move changes the objective by exactly one: for a valid state and
    an action that [acciones] lists, [valor_objetivo] of the state that
    [resultado] returns is the value of the state plus 1 or minus 1. *)
Theorem puzzle_resultado_valor_step s h x g zr zc a :
  _pos_objetivo s = pos_objetivo_init →
  is_puzzle h x g → valid_grid g → cell g zr zc = Some 0 →
  VStr a ∈ legal_moves zr zc →
  ∃ h1 y m m',
    resultado (VRef x) a h = (h1, Ret (VRef y))
    ∧ valor_objetivo s (VRef x) h = (h, Ret m)
    ∧ valor_objetivo s (VRef y) h1 = (h1, Ret m')
    ∧ (m' = m + 1 ∨ m' = m - 1).
Proof.
  intros Hpos [rows Hgrid] Hvalid Hz Hin.
  destruct (legal_move _ _ _ _ _ _ _ Hgrid Hvalid Hz Hin)
    as (nr & nc & v & h1 & y & rows1 & _ & _ & Hadj & Hn & Erun & Hgrid1
        & Hvalid1 & _).
  exists h1, y, (manhattan g), (manhattan (moved g zr zc nr nc v)).
  split_and!; [done| | |].
  - by eapply valor_objetivo_run.
  - by eapply valor_objetivo_run.
  - by apply swap_manhattan.
Qed.

(** UP from the state with the blank in the middle. *)
Lemma puzzle_resultado_valor_step_witness :
  let s := {| _initial := VRef 1; _pos_objetivo := pos_objetivo_init |} in
  let h := store_of grid_mid in
  ∃ h1 y m m',
    resultado (VRef 1) "UP" h = (h1, Ret (VRef y))
    ∧ valor_objetivo s (VRef 1) h = (h, Ret m)
    ∧ valor_objetivo s (VRef y) h1 = (h1, Ret m')
    ∧ (m' = m + 1 ∨ m' = m - 1).
Proof.
  intros s h.
  apply (puzzle_resultado_valor_step s h 1%positive grid_mid 1 1 "UP");
    [reflexivity|eexists; apply store_of_grid|apply grid_mid_valid|reflexivity
    |vm_compute; elem_here].
Defined.

Lemma inversions_8 a b c d e f g h :
  inversions [a; b; c; d; e; f; g; h] =
  inv_pair a b + inv_pair a c + inv_pair a d + inv_pair a e + inv_pair a f
  + inv_pair a g + inv_pair a h
  + inv_pair b c + inv_pair b d + inv_pair b e + inv_pair b f + inv_pair b g
  + inv_pair b h
  + inv_pair c d + inv_pair c e + inv_pair c f + inv_pair c g + inv_pair c h
  + inv_pair d e + inv_pair d f + inv_pair d g + inv_pair d h
  + inv_pair e f + inv_pair e g + inv_pair e h
  + inv_pair f g + inv_pair f h
  + inv_pair g h.
Proof.
  unfold inversions. rewrite length_filter_sum. unfold inv_pair.
  cbn [length].
  match goal with |- context [list_prod ?x ?y] =>
    let l := eval vm_compute in (list_prod x y) in
    change (list_prod x y) with l end.
  cbv -[Z.gtb Z.add]. lia.
Qed.

Lemma inv_pair_flip x y : x ≠ y → inv_pair x y + inv_pair y x = 1.
Proof.
  intros Hne. unfold inv_pair.
  destruct (Z.gtb_spec x y), (Z.gtb_spec y x); lia.
Qed.

Lemma tiles_nil : tiles [] = [].
Proof. done. Qed.

Lemma tiles_cons_0 zs : tiles (0 :: zs) = tiles zs.
Proof. done. Qed.

Lemma tiles_cons_ne z zs : z ≠ 0 → tiles (z :: zs) = z :: tiles zs.
Proof. intros Hz. unfold tiles. by rewrite filter_cons_True. Qed.

Lemma mod_2_shift (m k : Z) : (m + 2 * k) `mod` 2 = m `mod` 2.
Proof. rewrite (Z.mul_comm 2 k). apply Z_mod_plus_full. Qed.

Lemma swap_parity g zr zc nr nc v :
  valid_grid g → cell g zr zc = Some 0 → cell g nr nc = Some v →
  Z.abs (zr - nr) + Z.abs (zc - nc) = 1 →
  inversions (tiles (concat (moved g zr zc nr nc v))) `mod` 2
  = inversions (tiles (concat g)) `mod` 2.
Proof.
  intros Hvalid Hz Hn Hadj.
  destruct (cell_cases _ _ _ _ Hvalid Hz) as [Hzr Hzc].
  destruct (cell_cases _ _ _ _ Hvalid Hn) as [Hnr Hnc].
  apply valid_grid_inv in Hvalid
    as (a & b & c & d & e & f & g' & h & i & -> & Hperm).
  assert (NoDup [a; b; c; d; e; f; g'; h; i]) as Hnd.
  { rewrite Hperm. by apply (bool_decide_unpack _). }
  clear Hperm.
  rewrite !NoDup_cons in Hnd. rewrite !not_elem_of_cons in Hnd.
  destruct_and!.
  destruct_or!; subst zr zc nr nc; cbv in Hadj; try discriminate Hadj;
    clear Hadj; cbv in Hz, Hn;
    injection Hz as Hz; injection Hn as Hn; subst;
    unfold moved; eval_set_cell; cbn [concat app];
    repeat first [rewrite tiles_nil | rewrite tiles_cons_0
                 | rewrite tiles_cons_ne by done];
    try (match goal with |- ?A = ?B => constr_eq A B end; exact eq_refl);
    rewrite !inversions_8;
    repeat match goal with
    | H : ?x ≠ ?y |- _ =>
        pose proof (inv_pair_flip x y H); clear H
    end;
    repeat match goal with
    | |- context [inv_pair ?x ?y] =>
        let n := fresh "n" in
        generalize dependent (inv_pair x y); intros n
    end;
    intros;
    match goal with
    | |- ?A `mod` 2 = ?B `mod` 2 =>
        replace A with (B + 2 * ((A - B) `div` 2))
          by (Z.div_mod_to_equations; lia);
        apply mod_2_shift
    end.
Qed.

Lemma concat_valid g : valid_grid g → concat g ≡ₚ range 0 9.
Proof. by intros (_ & _ & Hperm). Qed.

(** X17. A move keeps the answer of the solvability test: for a valid state
    and an action that [acciones] lists, [__es_resoluble] returns the same
    boolean on the row-major reading of the state and on the row-major
    reading of the state that [resultado] returns. *)
Theorem puzzle_resultado_keeps_resoluble h x g zr zc a hp p :
  is_puzzle h x g → valid_grid g → cell g zr zc = Some 0 →
  VStr a ∈ legal_moves zr zc →
  hp !! p = Some (VInt <$> concat g) →
  ∃ h1 y g1 hp' ok,
    resultado (VRef x) a h = (h1, Ret (VRef y))
    ∧ is_puzzle h1 y g1 ∧ valid_grid g1
    ∧ __es_resoluble (VRef p) hp = (hp', Ret ok)
    ∧ ∀ hq q, hq !! q = Some (VInt <$> concat g1) →
        ∃ hq', __es_resoluble (VRef q) hq = (hq', Ret ok).
Proof.
  intros [rows Hgrid] Hvalid Hz Hin Hp.
  destruct (legal_move _ _ _ _ _ _ _ Hgrid Hvalid Hz Hin)
    as (nr & nc & v & h1 & y & rows1 & _ & _ & Hadj & Hn & Erun & Hgrid1
        & Hvalid1 & _).
  eexists h1, y, (moved g zr zc nr nc v), _, _.
  split_and!; [done|by exists rows1|done| |].
  - by apply es_resoluble_run, concat_valid.
  - intros hq q Hq. eexists.
    rewrite (es_resoluble_run _ _ _ Hq (concat_valid _ Hvalid1)).
    by rewrite (swap_parity g zr zc nr nc v).
Qed.

(** DOWN from the state with the blank in the middle. *)
Lemma puzzle_resultado_keeps_resoluble_witness :
  let h := store_of grid_mid in
  let hp : heap := {[ 1%positive := VInt <$> concat grid_mid ]} in
  ∃ h1 y g1 hp' ok,
    resultado (VRef 1) "DOWN" h = (h1, Ret (VRef y))
    ∧ is_puzzle h1 y g1 ∧ valid_grid g1
    ∧ __es_resoluble (VRef 1) hp = (hp', Ret ok)
    ∧ ∀ hq q, hq !! q = Some (VInt <$> concat g1) →
        ∃ hq', __es_resoluble (VRef q) hq = (hq', Ret ok).
Proof.
  intros h hp.
  apply (puzzle_resultado_keeps_resoluble h 1%positive grid_mid 1 1 "DOWN"
           hp 1%positive);
    [eexists; apply store_of_grid|apply grid_mid_valid|reflexivity
    |vm_compute; elem_here|reflexivity].
Defined.

Lemma deepcopy_puzzle h x rows g :
  is_grid h x rows g → valid_grid g →
  ∃ h' y rows',
    deepcopy (VRef x) h = (h', Ret (VRef y))
    ∧ is_grid h' y rows' g
    ∧ h ⊆ h'
    ∧ (∀ l, l ∈ y :: rows' → h !! l = None).
Proof.
  intros Hgrid Hvalid.
  destruct (deepcopy_grid h x rows g Hgrid (is_grid_NoDup _ _ _ _ Hgrid Hvalid))
    as (h' & y & rows' & Erun & Hgrid' & _ & Hfresh & Hsame).
  exists h', y, rows'. split_and!; [done..| |done].
  apply map_subseteq_spec. intros l xs Hl.
  destruct (decide (l ∈ y :: rows')) as [Hin|Hout].
  - by rewrite (Hfresh l Hin) in Hl.
  - by rewrite (Hsame l Hout).
Qed.

(** X18. Whatever its argument, an instance that [__init__] returns maps the
    value [v] to the goal position [(v / 3, v mod 3)] for the nine values
    0..8, the blank included, and has no other key. *)
Theorem puzzle_init_pos_objetivo initial fuel rg h h' s rg' v :
  __init__ initial fuel rg h = (h', Ret (Some (s, rg'))) →
  _pos_objetivo s !! v =
  if bool_decide (0 ≤ v ≤ 8) then Some (v `div` 3, v `mod` 3) else None.
Proof.
  intros Hrun. unfold __init__ in Hrun.
  apply bind_inv_ret in Hrun as (h1 & created & _ & Hrun).
  destruct created as [[x g]|]; [|done].
  injection Hrun as _ <- _. apply pos_objetivo_lookup.
Qed.

Lemma init_copy_run h x rows g fuel rg :
  is_grid h x rows g → valid_grid g →
  ∃ h1 y rows1,
    __init__ (Some (VRef x)) fuel rg h =
      (h1, Ret (Some ({| _initial := VRef y;
                         _pos_objetivo := pos_objetivo_init |}, rg)))
    ∧ is_grid h1 y rows1 g
    ∧ h ⊆ h1
    ∧ (∀ l, l ∈ y :: rows1 → h !! l = None).
Proof.
  intros Hgrid Hvalid.
  destruct (deepcopy_puzzle h x rows g Hgrid Hvalid)
    as (h1 & y & rows1 & Erun & Hgrid1 & Hsub & Hfresh).
  exists h1, y, rows1. split_and!; [|done..].
  unfold __init__. erewrite bind_ret; cycle 1.
  { by rewrite (bind_ret _ _ _ _ _ Erun). }
  done.
Qed.

(** The tile 5 has the goal cell (1, 2), and 9 is no key. *)
Lemma puzzle_init_pos_objetivo_witness :
  ∃ h1 s,
    __init__ (Some (VRef 1)) 0 (λ _, 0%nat) (store_of grid_mid) =
      (h1, Ret (Some (s, λ _, 0%nat)))
    ∧ _pos_objetivo s !! 5 = Some (1, 2)
    ∧ _pos_objetivo s !! 9 = None.
Proof.
  destruct (init_copy_run (store_of grid_mid) 1%positive [2; 3; 4]%positive
              grid_mid 0 (λ _, 0%nat))
    as (h1 & y & rows1 & Erun & _);
    [apply store_of_grid|apply grid_mid_valid|].
  eexists h1, _. split_and!; [exact Erun|..].
  - exact (puzzle_init_pos_objetivo _ _ _ _ _ _ _ 5 Erun).
  - exact (puzzle_init_pos_objetivo _ _ _ _ _ _ _ 9 Erun).
Defined.

(** X19. [__init__] with a valid grid stores a deep copy of it: the stored
    state has the cells of the argument in an outer list and three rows that
    are all new, the argument and every other object stay as they were, the
    random stream is not read, and [valor_objetivo] of the stored state is
    the Manhattan sum of the argument. *)
Theorem puzzle_init_copies h x g fuel rg :
  is_puzzle h x g → valid_grid g →
  ∃ h1 s y rows1,
    __init__ (Some (VRef x)) fuel rg h = (h1, Ret (Some (s, rg)))
    ∧ _initial s = VRef y
    ∧ is_grid h1 y rows1 g
    ∧ h ⊆ h1
    ∧ (∀ l, l ∈ y :: rows1 → h !! l = None)
    ∧ valor_objetivo s (VRef y) h1 = (h1, Ret (manhattan g)).
Proof.
  intros [rows Hgrid] Hvalid.
  destruct (init_copy_run h x rows g fuel rg Hgrid Hvalid)
    as (h1 & y & rows1 & Erun & Hgrid1 & Hsub & Hfresh).
  eexists h1, _, y, rows1. split_and!; [exact Erun|done..|].
  by eapply valor_objetivo_run.
Qed.

(** An instance built from the state with the blank in the middle. *)
Lemma puzzle_init_copies_witness :
  let h := store_of grid_mid in
  ∃ h1 s y rows1,
    __init__ (Some (VRef 1)) 0 (λ _, 0%nat) h = (h1, Ret (Some (s, λ _, 0%nat)))
    ∧ _initial s = VRef y
    ∧ is_grid h1 y rows1 grid_mid
    ∧ h ⊆ h1
    ∧ (∀ l, l ∈ y :: rows1 → h !! l = None)
    ∧ valor_objetivo s (VRef y) h1 = (h1, Ret (manhattan grid_mid)).
Proof.
  intros h.
  apply (puzzle_init_copies h 1%positive grid_mid 0 (λ _, 0%nat));
    [eexists; apply store_of_grid|apply grid_mid_valid].
Defined.

(** X20. [estado_inicial] returns a deep copy of the stored state: a grid with
    the same cells whose outer list and rows are all new, so that an
    assignment to any index of the returned list or of one of its rows
    leaves the stored state as it was. *)
Theorem puzzle_estado_inicial_copy s h y rows g :
  _initial s = VRef y → is_grid h y rows g → valid_grid g →
  ∃ h1 z rows1,
    estado_inicial s h = (h1, Ret (VRef z))
    ∧ is_grid h1 z rows1 g
    ∧ h ⊆ h1
    ∧ (∀ l, l ∈ z :: rows1 → h !! l = None)
    ∧ (∀ l i v h2, l ∈ z :: rows1 →
         setitem (VRef l) i v h1 = (h2, Ret tt) → is_grid h2 y rows g).
Proof.
  intros Hs Hgrid Hvalid.
  destruct (deepcopy_puzzle h y rows g Hgrid Hvalid)
    as (h1 & z & rows1 & Erun & Hgrid1 & Hsub & Hfresh).
  exists h1, z, rows1. split_and!; [|done..|].
  - unfold estado_inicial. by rewrite Hs.
  - intros l i v h2 Hl Hset. unfold setitem in Hset.
    destruct (h1 !! l) as [xs|]; [|done].
    destruct (index (length xs) i); [|done].
    injection Hset as <-.
    eapply is_grid_frame; [by eapply is_grid_weaken|].
    intros l' Hl'. apply lookup_insert_ne. intros ->.
    destruct (is_grid_allocated _ _ _ _ _ Hgrid Hl') as [ys Hys].
    by rewrite (Hfresh _ Hl) in Hys.
Qed.

(** The initial state of an instance that stores the state with the blank
    in the middle. *)
Lemma puzzle_estado_inicial_copy_witness :
  let s := {| _initial := VRef 1; _pos_objetivo := pos_objetivo_init |} in
  let h := store_of grid_mid in
  ∃ h1 z rows1,
    estado_inicial s h = (h1, Ret (VRef z))
    ∧ is_grid h1 z rows1 grid_mid
    ∧ h ⊆ h1.
Proof.
  intros s h.
  destruct (puzzle_estado_inicial_copy s h 1%positive [2; 3; 4]%positive
              grid_mid)
    as (h1 & z & rows1 & Erun & Hgrid & Hsub & _);
    [reflexivity|apply store_of_grid|apply grid_mid_valid|].
  exists h1, z, rows1. split_and!; assumption.
Defined.

End puzzle.
